(** * Bernstein-Vazirani demo: circuit construction, simulation and result

    A shallow embedding of the Python script of the repository.  The circuit
    builders ([create_oracle], [bernstein_vazirani_circuit]) follow the
    qiskit calls of the script instruction by instruction; the simulation
    ([simulate_circuit]) follows the semantics of the simulator the script
    calls (qiskit Aer): a noiseless statevector evolution, measurements at
    the end of the circuit, and sampling of the measured bits.

    Amplitudes are kept exact: every gate of the circuit is a permutation
    of basis states or a Hadamard, so every amplitude is an integer divided
    by [sqrt 2 ^ scale].  A state stores that integer for each basis index
    together with [scale]. *)

From Stdlib Require Import String Ascii List Bool ZArith Lia QArith.
From Stdlib Require Import Sorting.Permutation Sorting.Sorted.
Import ListNotations.

(** ** Circuits *)

Inductive gate : Type :=
| XGate (target : nat)
| HGate (target : nat)
| CXGate (control target : nat).

Inductive instruction : Type :=
| IGate (g : gate)
| IBarrier (qubits : list nat)
| IMeasure (qubit clbit : nat).

Record circuit : Type := mkCircuit {
  num_qubits : nat;
  num_clbits : nat;
  data : list instruction }.

(** [QuantumCircuit.append]: instructions are kept in program order. *)
Definition append (c : circuit) (i : instruction) : circuit :=
  mkCircuit (num_qubits c) (num_clbits c) (data c ++ [i]).

(** [circuit.x(q)], [circuit.h(q)], [circuit.cx(c, t)]. *)
Definition x (c : circuit) (q : nat) : circuit := append c (IGate (XGate q)).
Definition h (c : circuit) (q : nat) : circuit := append c (IGate (HGate q)).
Definition cx (c : circuit) (ctl tgt : nat) : circuit :=
  append c (IGate (CXGate ctl tgt)).

(** [circuit.h(qr)] on a register broadcasts one gate per qubit, in
    register order. *)
Definition h_reg (c : circuit) (qr : list nat) : circuit := fold_left h qr c.

(** [circuit.barrier()] with no argument spans every qubit. *)
Definition barrier (c : circuit) : circuit :=
  append c (IBarrier (seq 0 (num_qubits c))).

(** [circuit.measure(qr, cr)] pairs the registers bit by bit. *)
Definition measure (c : circuit) (qr cr : list nat) : circuit :=
  fold_left (fun c qc => append c (IMeasure (fst qc) (snd qc))) (combine qr cr) c.

Definition remap (m : list nat) (q : nat) : nat := nth q m q.

Definition remap_instruction (m : list nat) (i : instruction) : instruction :=
  match i with
  | IGate (XGate t) => IGate (XGate (remap m t))
  | IGate (HGate t) => IGate (HGate (remap m t))
  | IGate (CXGate c t) => IGate (CXGate (remap m c) (remap m t))
  | IBarrier qs => IBarrier (map (remap m) qs)
  | IMeasure q b => IMeasure (remap m q) b
  end.

(** [circuit.compose(other, qubits=m, inplace=True)]. *)
Definition compose (c other : circuit) (m : list nat) : circuit :=
  fold_left append (map (remap_instruction m) (data other)) c.

(** Exceptions the script can meet. *)
Inductive py_exc : Type :=
| CircuitError_empty_args (* a gate broadcast over an empty register *)
| QiskitError_no_counts   (* [result.get_counts()] when no shot left counts *)
| ValueError_max_empty.   (* [max()] of an empty mapping *)

(** [circuit.h(qr)] through qiskit's argument broadcasting: a gate applied
    to an empty register raises
    [CircuitError('One or more of the arguments are empty')]. *)
Definition h_reg_checked (c : circuit) (qr : list nat) : py_exc + circuit :=
  match qr with
  | [] => inl CircuitError_empty_args
  | _ => inr (h_reg c qr)
  end.

(** ** The program *)

(** [create_oracle]: [for i, bit in enumerate(reversed(s)): if bit == '1':
    oracle.cx(i, n)]. *)
Fixpoint oracle_loop (oracle : circuit) (bits : list ascii) (i n : nat)
  : circuit :=
  match bits with
  | [] => oracle
  | b :: rest =>
      oracle_loop (if Ascii.eqb b "1"%char then cx oracle i n else oracle)
                  rest (S i) n
  end.

Definition create_oracle (secret_string : string) : circuit :=
  let n := String.length secret_string in
  let oracle := mkCircuit (S n) 0 [] in
  oracle_loop oracle (rev (list_ascii_of_string secret_string)) 0 n.

(** [bernstein_vazirani_circuit]: the data register [qr] holds qubits
    [0 .. n-1], the auxiliary register holds qubit [n], the classical
    register [cr] holds bits [0 .. n-1].  This is the circuit the calls
    build when none of them raises, that is for a non-empty secret;
    [build_bernstein_vazirani_circuit] below adds the exception. *)
Definition bernstein_vazirani_circuit (secret_string : string) : circuit :=
  let n := String.length secret_string in
  let qr := seq 0 n in
  let auxiliary := n in
  let cr := seq 0 n in
  let circuit := mkCircuit (S n) n [] in
  let circuit := x circuit auxiliary in
  let circuit := h circuit auxiliary in
  let circuit := h_reg circuit qr in
  let circuit := barrier circuit in
  let oracle := create_oracle secret_string in
  let circuit := compose circuit oracle (seq 0 (S n)) in
  let circuit := barrier circuit in
  let circuit := h_reg circuit qr in
  measure circuit qr cr.

(** [bernstein_vazirani_circuit(secret_string)] with its exceptions: the
    first [circuit.h(qr)] raises on an empty data register, so
    [circuit.measure(qr, cr)] is only reached with a non-empty one. *)
Definition build_bernstein_vazirani_circuit (secret_string : string)
  : py_exc + circuit :=
  let n := String.length secret_string in
  let qr := seq 0 n in
  let auxiliary := n in
  let cr := seq 0 n in
  let circuit := mkCircuit (S n) n [] in
  let circuit := x circuit auxiliary in
  let circuit := h circuit auxiliary in
  match h_reg_checked circuit qr with
  | inl e => inl e
  | inr circuit =>
      let circuit := barrier circuit in
      let oracle := create_oracle secret_string in
      let circuit := compose circuit oracle (seq 0 (S n)) in
      let circuit := barrier circuit in
      match h_reg_checked circuit qr with
      | inl e => inl e
      | inr circuit => inr (measure circuit qr cr)
      end
  end.

(** [validate_binary_string]: [all(c in '01' for c in s) and len(s) > 0]. *)
Definition in_str (c : ascii) (s : string) : bool :=
  existsb (Ascii.eqb c) (list_ascii_of_string s).

Definition validate_binary_string (s : string) : bool :=
  forallb (fun c => in_str c "01") (list_ascii_of_string s)
  && (0 <? String.length s)%nat.

(** ** Statevector simulation *)

Open Scope Z_scope.

Definition bit (k : Z) (q : nat) : bool := Z.testbit k (Z.of_nat q).
Definition flip (k : Z) (q : nat) : Z := Z.lxor k (2 ^ Z.of_nat q).

(** Basis index [k] carries amplitude [amp k / sqrt 2 ^ scale]; qubit [q]
    is bit [q] of [k]. *)
Record state : Type := mkState { scale : nat; amp : Z -> Z }.

Definition apply_gate (g : gate) (st : state) : state :=
  let a := amp st in
  match g with
  | XGate t => mkState (scale st) (fun k => a (flip k t))
  | HGate t =>
      mkState (S (scale st))
        (fun k => if bit k t then a (flip k t) - a k else a k + a (flip k t))
  | CXGate c t => mkState (scale st) (fun k => if bit k c then a (flip k t) else a k)
  end.

(** Barriers are directives without effect on the state; measurements are
    final in the circuits of the program and are applied when sampling. *)
Definition apply_instruction (st : state) (i : instruction) : state :=
  match i with
  | IGate g => apply_gate g st
  | IBarrier _ => st
  | IMeasure _ _ => st
  end.

Definition initial_state : state := mkState 0 (fun k => if k =? 0 then 1 else 0).

Definition run_instructions (ins : list instruction) (st : state) : state :=
  fold_left apply_instruction ins st.

Definition final_state (c : circuit) : state :=
  run_instructions (data c) initial_state.

(** Squared magnitude of an amplitude, times [2 ^ scale]. *)
Definition weight (st : state) (k : Z) : Z := amp st k * amp st k.

(** [sum_pow N f] sums [f] over the basis indices [0 .. 2^N - 1]. *)
Fixpoint sum_pow (N : nat) (f : Z -> Z) : Z :=
  match N with
  | O => f 0
  | S M => sum_pow M f + sum_pow M (fun k => f (k + 2 ^ Z.of_nat M))
  end.

(** Inverse-CDF sampling of a basis index: [r] in [0, total) is located
    in the cumulative weights taken in index order. *)
Fixpoint pick_pow (N : nat) (f : Z -> Z) (r : Z) : Z :=
  match N with
  | O => 0
  | S M =>
      let lo := sum_pow M f in
      if r <? lo then pick_pow M f r
      else 2 ^ Z.of_nat M + pick_pow M (fun k => f (k + 2 ^ Z.of_nat M)) (r - lo)
  end.

(** Value of classical bit [j] after the measurements, for basis index [k]. *)
Definition clbit_value (ins : list instruction) (k : Z) (j : nat) : bool :=
  fold_left
    (fun acc i => match i with
                  | IMeasure q c => if Nat.eqb c j then bit k q else acc
                  | _ => acc
                  end) ins false.

(** qiskit writes classical bit [nc-1] first and bit [0] last. *)
Fixpoint key_string (nc : nat) (cl : nat -> bool) : string :=
  match nc with
  | O => EmptyString
  | S m => String (if cl m then "1"%char else "0"%char) (key_string m cl)
  end.

Definition outcome_key (c : circuit) (k : Z) : string :=
  key_string (num_clbits c) (clbit_value (data c) k).

(** Probability of reading the classical bitstring [y]. *)
Definition outcome_weight (c : circuit) (y : string) : Z :=
  let st := final_state c in
  sum_pow (num_qubits c)
    (fun k => if String.eqb (outcome_key c k) y then weight st k else 0).

Definition outcome_prob (c : circuit) (y : string) : Q :=
  outcome_weight c y # Z.to_pos (2 ^ Z.of_nat (scale (final_state c))).

(** Total probability mass of a state of an [N]-qubit register. *)
Definition total_mass (N : nat) (st : state) : Q :=
  sum_pow N (weight st) # Z.to_pos (2 ^ Z.of_nat (scale st)).

(** ** Counts, simulation and the driver *)

Definition counts : Type := list (string * nat).

Fixpoint add_count (key : string) (cs : counts) : counts :=
  match cs with
  | [] => [(key, 1%nat)]
  | (k, v) :: rest =>
      if String.eqb k key then (k, S v) :: rest else (k, v) :: add_count key rest
  end.

Definition counts_of (keys : list string) : counts :=
  fold_left (fun cs k => add_count k cs) keys [].

Definition total_count (cs : counts) : nat :=
  fold_right (fun kv acc => (snd kv + acc)%nat) 0%nat cs.

(** The random source of the simulator: draw [i] decides shot [i]. *)
Definition rng : Type := nat -> Z.

Definition is_measure (i : instruction) : bool :=
  match i with IMeasure _ _ => true | _ => false end.

(** [simulate_circuit(circuit, shots)]: [AerSimulator().run(...)] then
    [result.get_counts()], which raises when the run recorded no counts:
    for a circuit without measurement, and for [shots = 0]. *)
Definition simulate_circuit (c : circuit) (shots : nat) (draw : rng)
  : py_exc + counts :=
  if negb (existsb is_measure (data c)) || (shots =? 0)%nat
  then inl QiskitError_no_counts
  else
    let st := final_state c in
    let total := 2 ^ Z.of_nat (scale st) in
    let sample i := pick_pow (num_qubits c) (weight st) (draw i mod total) in
    inr (counts_of (map (fun i => outcome_key c (sample i)) (seq 0 shots))).

(** [max(counts, key=counts.get)]: the first key of maximal count. *)
Fixpoint max_from (best : string * nat) (cs : counts) : string :=
  match cs with
  | [] => fst best
  | (k, v) :: rest =>
      if (snd best <? v)%nat then max_from (k, v) rest else max_from best rest
  end.

Definition max_key (cs : counts) : option string :=
  match cs with
  | [] => None
  | kv :: rest => Some (max_from kv rest)
  end.

Inductive py_result : Type :=
| PyReturnNone
| PyRaise (e : py_exc).

(** What one call of [run_bernstein_vazirani] does: the arguments it passes
    to [simulate_circuit] (none when building the circuit raised), its
    locals [counts] and [found_string] (when it gets that far), and how it
    ends.  Printing is left out. *)
Record bv_trace : Type := mkTrace {
  tr_simulated : option (circuit * nat);
  tr_counts : option counts;
  tr_found : option string;
  tr_result : py_result }.

Definition run_bernstein_vazirani (secret_string : string) (shots : nat)
  (draw : rng) : bv_trace :=
  match build_bernstein_vazirani_circuit secret_string with
  | inl e => mkTrace None None None (PyRaise e)
  | inr circuit =>
      match simulate_circuit circuit shots draw with
      | inl e => mkTrace (Some (circuit, shots)) None None (PyRaise e)
      | inr cs =>
          match max_key cs with
          | None =>
              mkTrace (Some (circuit, shots)) (Some cs) None (PyRaise ValueError_max_empty)
          | Some found_string =>
              mkTrace (Some (circuit, shots)) (Some cs) (Some found_string) PyReturnNone
          end
      end
  end.

Definition strip_barriers (c : circuit) : circuit :=
  mkCircuit (num_qubits c) (num_clbits c)
    (filter (fun i => match i with IBarrier _ => false | _ => true end) (data c)).

(** Bit [i] of the secret as the oracle reads it: [reversed(s)[i] == '1']. *)
Definition list_bit (bits : list ascii) (i : nat) : bool :=
  match nth_error bits i with
  | Some c => Ascii.eqb c "1"%char
  | None => false
  end.

Definition secret_bit (s : string) (i : nat) : bool :=
  list_bit (rev (list_ascii_of_string s)) i.

(** Qubit and clbit indices of every instruction lie below [N], and a
    controlled gate has distinct control and target. *)
Definition gate_ok (N : nat) (g : gate) : Prop :=
  match g with
  | XGate t => (t < N)%nat
  | HGate t => (t < N)%nat
  | CXGate c t => (c < N)%nat /\ (t < N)%nat /\ c <> t
  end.

Definition instruction_ok (N : nat) (i : instruction) : Prop :=
  match i with
  | IGate g => gate_ok N g
  | _ => True
  end.

(** The instruction list [bernstein_vazirani_circuit] produces, written out. *)
Definition bv_instructions (n : nat) (oracle : list instruction) : list instruction :=
  [IGate (XGate n); IGate (HGate n)]
  ++ map (fun q => IGate (HGate q)) (seq 0 n)
  ++ [IBarrier (seq 0 (S n))]
  ++ oracle
  ++ [IBarrier (seq 0 (S n))]
  ++ map (fun q => IGate (HGate q)) (seq 0 n)
  ++ map (fun q => IMeasure q q) (seq 0 n).

(** The same list with the barriers left out, as the spec lists it. *)
Definition bv_gate_sequence (n : nat) (oracle : list instruction) : list instruction :=
  [IGate (XGate n); IGate (HGate n)]
  ++ map (fun q => IGate (HGate q)) (seq 0 n)
  ++ oracle
  ++ map (fun q => IGate (HGate q)) (seq 0 n)
  ++ map (fun q => IMeasure q q) (seq 0 n).

Definition not_barrier (i : instruction) : bool :=
  match i with IBarrier _ => false | _ => true end.

(** Total weight [2 ^ scale]: the squared magnitudes sum to 1. *)
Definition normalized (N : nat) (st : state) : Prop :=
  sum_pow N (weight st) = 2 ^ Z.of_nat (scale st).

Definition gate_factor (g : gate) : Z :=
  match g with HGate _ => 2 | _ => 1 end.

(** ** Product states

    The states the circuit of the program goes through are products of
    one-qubit states: [phi q] gives the two (unnormalised) amplitudes of
    qubit [q], and the basis index must have no bit at or above [N]. *)

Definition upd (phi : nat -> bool -> Z) (j : nat) (psi : bool -> Z)
  : nat -> bool -> Z :=
  fun i => if Nat.eqb i j then psi else phi i.

Fixpoint prod_bits (phi : nat -> bool -> Z) (k : Z) (m : nat) : Z :=
  match m with
  | O => 1
  | S m' => prod_bits phi k m' * phi m' (bit k m')
  end.

Definition prod_amp (N : nat) (phi : nat -> bool -> Z) (k : Z) : Z :=
  if Z.shiftr k (Z.of_nat N) =? 0 then prod_bits phi k N else 0.

Definition is_prod (N sc : nat) (phi : nat -> bool -> Z) (st : state) : Prop :=
  scale st = sc /\ forall k, amp st k = prod_amp N phi k.

(** One-qubit actions of X, H and of a control qubit whose target is in
    the state (a, -a). *)
Definition xswap (psi : bool -> Z) (b : bool) : Z := psi (negb b).
Definition hmix (psi : bool -> Z) (b : bool) : Z :=
  if b then psi false - psi true else psi false + psi true.
Definition pflip (psi : bool -> Z) (b : bool) : Z :=
  if b then - psi true else psi false.

Definition zero_phi (i : nat) (b : bool) : Z := if b then 0 else 1.

(** The one-qubit factors of the final state: data qubit [i] holds
    [2 |s_i>], the auxiliary qubit [|0> - |1>]. *)
Definition bv_phi (s : string) (i : nat) (b : bool) : Z :=
  if (i <? String.length s)%nat
  then (if Bool.eqb b (secret_bit s i) then 2 else 0)
  else (if b then -1 else 1).

(** The string the measured bits of the circuit spell when they equal the
    bits the oracle reads from the secret. *)
Definition decoded_secret (s : string) : string :=
  key_string (String.length s) (secret_bit s).

Open Scope nat_scope.

(** ** The results table

    [sorted(counts.items(), key=lambda x: x[1], reverse=True)]: Python's
    sort is stable, also with [reverse=True], so the result is the list
    sorted by decreasing count with equal counts kept in mapping order; an
    insertion sort that places each pair after the pairs of larger or equal
    count computes it. *)
Fixpoint insert_desc (kv : string * nat) (l : counts) : counts :=
  match l with
  | [] => [kv]
  | kv' :: rest =>
      if (snd kv' <? snd kv)%nat then kv :: l else kv' :: insert_desc kv rest
  end.

Definition sorted_counts (cs : counts) : counts :=
  fold_left (fun acc kv => insert_desc kv acc) cs [].

(** The string the core reports for a secret that may hold characters other
    than '0' and '1': the oracle reads such a character as a 0 bit. *)
Fixpoint binarize (s : string) : string :=
  match s with
  | EmptyString => EmptyString
  | String c rest =>
      String (if Ascii.eqb c "1"%char then "1"%char else "0"%char) (binarize rest)
  end.

(** ** The interactive front end

    Input lines are Python strings whose code points are all below 256, one
    [ascii] per code point.  Only the operations the script applies to them
    are modelled: [str.strip()], [str.lower() == 'y'], [str.isdigit()] and
    [int()]. *)

(** [str.isspace()] on code points below 256. *)
Definition is_space (c : ascii) : bool :=
  let n := nat_of_ascii c in
  ((9 <=? n) && (n <=? 13)) || ((28 <=? n) && (n <=? 32))
  || (n =? 133) || (n =? 160).

Fixpoint lstrip_chars (l : list ascii) : list ascii :=
  match l with
  | [] => []
  | c :: rest => if is_space c then lstrip_chars rest else l
  end.

(** [str.strip()] with no argument. *)
Definition strip (s : string) : string :=
  string_of_list_ascii
    (rev (lstrip_chars (rev (lstrip_chars (list_ascii_of_string s))))).

(** [str.lower()]: below code point 256 the only character that lowers to
    'y' is 'Y', so lowering A-Z decides [s.lower() == 'y'] exactly. *)
Definition lower_char (c : ascii) : ascii :=
  let n := nat_of_ascii c in
  if (65 <=? n) && (n <=? 90) then ascii_of_nat (n + 32) else c.

Definition lower (s : string) : string :=
  string_of_list_ascii (map lower_char (list_ascii_of_string s)).

Definition is_decimal (c : ascii) : bool :=
  let n := nat_of_ascii c in (48 <=? n) && (n <=? 57).

(** [str.isdigit()] on one character: the decimal digits and the
    superscripts 2, 3 and 1 (U+00B2, U+00B3, U+00B9). *)
Definition is_digit (c : ascii) : bool :=
  let n := nat_of_ascii c in
  is_decimal c || (n =? 178) || (n =? 179) || (n =? 185).

Definition isdigit (s : string) : bool :=
  (0 <? String.length s)%nat && forallb is_digit (list_ascii_of_string s).

(** [int(s)] on a string [s] with [s.isdigit()]: the decimal value, or
    [None] for the [ValueError] that the superscript digits raise. *)
Definition int_of_digits (s : string) : option nat :=
  if forallb is_decimal (list_ascii_of_string s)
  then Some (fold_left (fun acc c => acc * 10 + (nat_of_ascii c - 48))%nat
               (list_ascii_of_string s) 0%nat)
  else None.

(** Errors that end [interactive_mode]; [main] catches every one of them.
    [LoopFuel] is the exhausted fuel of the loop below, which a session
    never reaches (see [interactive_mode_terminates]). *)
Inductive py_error : Type :=
| EOFError                  (* [input()] with no line left *)
| ValueError_int            (* [int()] of a superscript digit *)
| RunError (e : py_exc)     (* raised by [run_bernstein_vazirani] *)
| LoopFuel.

(** Parsing of the shots answer:
    [shots = input().strip(); shots = int(shots) if shots.isdigit() else 1024]. *)
Definition shots_of_input (line : string) : py_error + nat :=
  let s := strip line in
  if isdigit s then
    match int_of_digits s with Some v => inr v | None => inl ValueError_int end
  else inr 1024%nat.

(** Parsing of the length answer:
    [int(length) if length.isdigit() and int(length) > 0 else 6]. *)
Definition length_of_input (line : string) : py_error + nat :=
  let s := strip line in
  if isdigit s then
    match int_of_digits s with
    | Some v => inr (if (0 <? v)%nat then v else 6%nat)
    | None => inl ValueError_int
    end
  else inr 6%nat.

(** What the session does that matters beyond printing. *)
Inductive event : Type :=
| EvInvalidSecret (secret : string)
| EvRun (secret : string) (show : bool) (shots : nat) (tr : bv_trace)
| EvInvalidChoice (choice : string).

(** The state threaded through the session: the input lines not read yet,
    the number of [np.random.choice] draws and of simulations done so far,
    and the events in order. *)
Record io_state : Type := mkIO {
  lines : list string;
  coin_pos : nat;
  run_pos : nat;
  log : list event }.

Definition M (A : Type) : Type := io_state -> (py_error + A) * io_state.

Definition ret {A} (a : A) : M A := fun st => (inr a, st).

Definition raise {A} (e : py_error) : M A := fun st => (inl e, st).

Definition bind {A B} (m : M A) (f : A -> M B) : M B :=
  fun st => match m st with
            | (inl e, st') => (inl e, st')
            | (inr a, st') => f a st'
            end.

Notation "x <- m ;; k" := (bind m (fun x => k))
  (at level 61, m at next level, right associativity).
Notation "m ;;; k" := (bind m (fun _ => k))
  (at level 61, right associativity).

Definition lift {A} (r : py_error + A) : M A :=
  match r with inl e => raise e | inr a => ret a end.

(** [input(prompt)]. *)
Definition input : M string :=
  fun st => match lines st with
            | [] => (inl EOFError, st)
            | l :: rest => (inr l, mkIO rest (coin_pos st) (run_pos st) (log st))
            end.

Definition emit (ev : event) : M unit :=
  fun st => (inr tt, mkIO (lines st) (coin_pos st) (run_pos st) (log st ++ [ev])).

Section Session.

(** [coin k]: whether the [k]-th [np.random.choice(['0', '1'])] picks '1';
    [draws k]: the random draws of the simulator in the [k]-th run. *)
Variable coin : nat -> bool.
Variable draws : nat -> rng.

Definition random_choice01 : M ascii :=
  fun st => (inr (if coin (coin_pos st) then "1"%char else "0"%char),
             mkIO (lines st) (S (coin_pos st)) (run_pos st) (log st)).

Fixpoint random_chars (len : nat) : M (list ascii) :=
  match len with
  | O => ret []
  | S len' => c <- random_choice01 ;; cs <- random_chars len' ;; ret (c :: cs)
  end.

(** [''.join(np.random.choice(['0', '1']) for _ in range(length))]. *)
Definition random_secret (len : nat) : M string :=
  cs <- random_chars len ;; ret (string_of_list_ascii cs).

(** [run_bernstein_vazirani(secret, show_circuit=show, shots=shots)]; an
    exception it raises propagates. *)
Definition run_bv (secret : string) (show : bool) (shots : nat) : M unit :=
  fun st =>
    let tr := run_bernstein_vazirani secret shots (draws (run_pos st)) in
    let st' := mkIO (lines st) (coin_pos st) (S (run_pos st))
                    (log st ++ [EvRun secret show shots tr]) in
    match tr_result tr with
    | PyReturnNone => (inr tt, st')
    | PyRaise e => (inl (RunError e), st')
    end.

(** [input(...).strip().lower() == 'y']. *)
Definition read_show : M bool :=
  l <- input ;; ret (String.eqb (lower (strip l)) "y").

Definition read_shots : M nat := l <- input ;; lift (shots_of_input l).

Definition demo_examples : list string :=
  ["101"; "1111"; "10101010"; "11001100"]%string.

(** Option 3: for each example, [input(...)] then a run without diagram. *)
Fixpoint run_demos (examples : list string) : M unit :=
  match examples with
  | [] => ret tt
  | secret :: rest =>
      _ <- input ;; run_bv secret false 1024 ;;; run_demos rest
  end.

(** One pass of the [while True] loop after the choice is read; [false]
    is the [break] of option 4. *)
Definition dispatch (choice : string) : M bool :=
  if String.eqb choice "1" then
    l <- input ;;
    let secret := strip l in
    if negb (validate_binary_string secret) then
      emit (EvInvalidSecret secret) ;;; ret true
    else
      show <- read_show ;; shots <- read_shots ;;
      run_bv secret show shots ;;; ret true
  else if String.eqb choice "2" then
    l <- input ;; len <- lift (length_of_input l) ;;
    secret <- random_secret len ;;
    show <- read_show ;; shots <- read_shots ;;
    run_bv secret show shots ;;; ret true
  else if String.eqb choice "3" then
    run_demos demo_examples ;;; ret true
  else if String.eqb choice "4" then ret false
  else emit (EvInvalidChoice choice) ;;; ret true.

Fixpoint interactive_loop (fuel : nat) : M unit :=
  match fuel with
  | O => raise LoopFuel
  | S fuel' =>
      l <- input ;; continue <- dispatch (strip l) ;;
      if continue then interactive_loop fuel' else ret tt
  end.

(** [interactive_mode()] on the given input lines: every pass of the loop
    reads a line, so one more pass than there are lines is enough. *)
Definition interactive_mode (input_lines : list string) : (py_error + unit) * io_state :=
  interactive_loop (S (length input_lines)) (mkIO input_lines 0 0 []).

End Session.

(** What the session guarantees of each event it logs: a run is only
    started on a secret that passes [validate_binary_string]; it then finds
    that secret, or, with [shots = 0], simulates and raises the
    [QiskitError] of [result.get_counts()]. *)
Definition ev_ok (ev : event) : Prop :=
  match ev with
  | EvInvalidSecret s => validate_binary_string s = false
  | EvRun s _ shots tr =>
      validate_binary_string s = true
      /\ tr_simulated tr = Some (bernstein_vazirani_circuit s, shots)
      /\ (if (shots =? 0)%nat
          then tr_counts tr = None /\ tr_result tr = PyRaise QiskitError_no_counts
          else tr_counts tr = Some [(s, shots)] /\ tr_found tr = Some s
               /\ tr_result tr = PyReturnNone)
  | EvInvalidChoice c => ~ In c ["1"; "2"; "3"; "4"]%string
  end.

(** [safe Q m]: run from a state whose events are all [ev_ok], [m] logs
    only [ev_ok] events, reads input without putting any back, ends with a
    result satisfying [Q], and fails from a run only after a run with no
    shot, which is then the last event. *)
Definition safe {A} (Q : A -> Prop) (m : M A) : Prop :=
  forall st, Forall ev_ok (log st) ->
    match m st with
    | (r, st') =>
        Forall ev_ok (log st') /\ length (lines st') <= length (lines st)
        /\ match r with
           | inr a => Q a
           | inl (RunError e) =>
               e = QiskitError_no_counts
               /\ exists pre s show tr, log st' = pre ++ [EvRun s show 0 tr]
           | inl LoopFuel => False
           | inl _ => True
           end
    end.

Open Scope Z_scope.

(** ** Circuit construction *)

Lemma fold_append_map {A} (g : A -> instruction) (l : list A) (c : circuit) :
  fold_left (fun c a => append c (g a)) l c
  = mkCircuit (num_qubits c) (num_clbits c) (data c ++ map g l).
Proof.
  revert c; induction l as [|a l IH]; intro c; simpl.
  - rewrite app_nil_r; destruct c; reflexivity.
  - rewrite IH; simpl; rewrite <- app_assoc; reflexivity.
Qed.

Lemma h_reg_eq c qr :
  h_reg c qr = mkCircuit (num_qubits c) (num_clbits c)
                 (data c ++ map (fun q => IGate (HGate q)) qr).
Proof. exact (fold_append_map (fun q => IGate (HGate q)) qr c). Qed.

Lemma combine_diag {A} (l : list A) : combine l l = map (fun a => (a, a)) l.
Proof. induction l as [|a l IH]; simpl; congruence. Qed.

Lemma measure_diag_eq c qr :
  measure c qr qr = mkCircuit (num_qubits c) (num_clbits c)
                      (data c ++ map (fun q => IMeasure q q) qr).
Proof.
  unfold measure; rewrite combine_diag.
  rewrite (fold_append_map (fun qc => IMeasure (fst qc) (snd qc))).
  rewrite map_map; reflexivity.
Qed.

Lemma compose_eq c other m :
  compose c other m = mkCircuit (num_qubits c) (num_clbits c)
                        (data c ++ map (remap_instruction m) (data other)).
Proof.
  unfold compose.
  generalize (map (remap_instruction m) (data other)) as l; intro l.
  revert c; induction l as [|i l IH]; intro c; simpl.
  - rewrite app_nil_r; destruct c; reflexivity.
  - rewrite IH; simpl; rewrite <- app_assoc; reflexivity.
Qed.

Lemma filter_shift (f : nat -> bool) len start :
  filter f (seq (S start) len) = map S (filter (fun j => f (S j)) (seq start len)).
Proof.
  revert start; induction len as [|len IH]; intro start; simpl; [reflexivity|].
  destruct (f (S start)); simpl; rewrite IH; reflexivity.
Qed.

Lemma oracle_loop_data c bits i n :
  oracle_loop c bits i n
  = mkCircuit (num_qubits c) (num_clbits c)
      (data c ++ map (fun j => IGate (CXGate (i + j) n))
                      (filter (list_bit bits) (seq 0 (length bits)))).
Proof.
  revert c i; induction bits as [|b bits IH]; intros c i; simpl.
  - rewrite app_nil_r; destruct c; reflexivity.
  - rewrite IH, filter_shift.
    change (filter (fun j => list_bit (b :: bits) (S j))) with (filter (list_bit bits)).
    change (list_bit (b :: bits) 0) with (Ascii.eqb b "1"%char).
    assert (Hm : map (fun j => IGate (CXGate (S i + j) n))
                   (filter (list_bit bits) (seq 0 (length bits)))
               = map (fun j => IGate (CXGate (i + j) n))
                   (map S (filter (list_bit bits) (seq 0 (length bits))))).
    { rewrite map_map; apply map_ext; intro j; rewrite Nat.add_succ_r; reflexivity. }
    rewrite Hm.
    destruct (Ascii.eqb b "1"%char); simpl;
      rewrite ?Nat.add_0_r, <- ?app_assoc; reflexivity.
Qed.

Lemma length_list_ascii (s : string) :
  length (list_ascii_of_string s) = String.length s.
Proof. induction s; simpl; congruence. Qed.

Lemma create_oracle_eq s :
  create_oracle s
  = mkCircuit (S (String.length s)) 0
      (map (fun i => IGate (CXGate i (String.length s)))
           (filter (secret_bit s) (seq 0 (String.length s)))).
Proof.
  unfold create_oracle; rewrite oracle_loop_data; simpl.
  rewrite length_rev, length_list_ascii; reflexivity.
Qed.

Lemma remap_oracle n l :
  Forall (fun i => (i < n)%nat) l ->
  map (remap_instruction (seq 0 (S n))) (map (fun i => IGate (CXGate i n)) l)
  = map (fun i => IGate (CXGate i n)) l.
Proof.
  intros Hl; rewrite map_map; apply map_ext_in; intros i Hi.
  rewrite Forall_forall in Hl; specialize (Hl i Hi).
  cbn [remap_instruction]; unfold remap; rewrite !seq_nth by lia; reflexivity.
Qed.

Lemma filter_seq_bound (f : nat -> bool) n :
  Forall (fun i => (i < n)%nat) (filter f (seq 0 n)).
Proof.
  apply Forall_forall; intros i Hi.
  apply filter_In in Hi as [Hi _]; apply in_seq in Hi; lia.
Qed.

Lemma bv_circuit_eq s :
  let n := String.length s in
  bernstein_vazirani_circuit s
  = mkCircuit (S n) n (bv_instructions n (data (create_oracle s))).
Proof.
  intro n; unfold bernstein_vazirani_circuit; fold n.
  rewrite measure_diag_eq, !h_reg_eq, compose_eq.
  cbn [data num_qubits num_clbits x h barrier append].
  rewrite create_oracle_eq; cbn [data]; fold n.
  rewrite remap_oracle by apply filter_seq_bound.
  unfold bv_instructions; rewrite <- !app_assoc; reflexivity.
Qed.


Lemma filter_no_barrier l :
  Forall (fun i => not_barrier i = true) l ->
  filter (fun i => match i with IBarrier _ => false | _ => true end) l = l.
Proof.
  induction 1 as [|i l Hi _ IH]; simpl; [reflexivity|].
  unfold not_barrier in Hi; rewrite Hi, IH; reflexivity.
Qed.

Lemma map_no_barrier {A} (g : A -> instruction) l :
  (forall a, not_barrier (g a) = true) ->
  Forall (fun i => not_barrier i = true) (map g l).
Proof. intro Hg; apply Forall_map, Forall_forall; intros; apply Hg. Qed.

Lemma get_list_ascii (s : string) (i : nat) :
  String.get i s = nth_error (list_ascii_of_string s) i.
Proof.
  revert i; induction s as [|c s IH]; intros [|i]; simpl; auto.
Qed.

(** C2: the Oracle Builder emits, in increasing order of position [i]
    ([i = 0] being the last character of the secret), one [CXGate i n] for
    every position whose character is '1', and nothing else; on "000" it
    emits nothing and on "101" exactly CX(0, 3) and CX(2, 3). *)
Theorem create_oracle_gates (s : string) :
  let n := String.length s in
  num_qubits (create_oracle s) = S n
  /\ data (create_oracle s)
     = map (fun i => IGate (CXGate i n)) (filter (secret_bit s) (seq 0 n))
  /\ (forall i, (i < n)%nat ->
        secret_bit s i = match String.get (n - 1 - i) s with
                         | Some c => Ascii.eqb c "1"%char
                         | None => false
                         end)
  /\ data (create_oracle "000") = []
  /\ data (create_oracle "101") = [IGate (CXGate 0 3); IGate (CXGate 2 3)].
Proof.
  intro n; rewrite create_oracle_eq; cbn [num_qubits data].
  split; [reflexivity|]; split; [reflexivity|]; split; [|split; reflexivity].
  intros i Hi; unfold secret_bit, list_bit.
  rewrite nth_error_rev, get_list_ascii, length_list_ascii; fold n.
  replace (n - 1 - i)%nat with (n - S i)%nat by lia.
  apply Nat.ltb_lt in Hi; rewrite Hi; reflexivity.
Qed.

(** C3: the assembled circuit has [n+1] qubits and [n] classical bits; its
    instructions are X and H on the auxiliary qubit [n], H on the data
    qubits [0..n-1], the oracle, H on the data qubits again and the
    measurement of qubit [q] into bit [q] for [q < n]; two barriers sit
    around the oracle, and without them the sequence is exactly the one
    above.  The auxiliary qubit is never measured. *)
Theorem bv_circuit_structure (s : string) :
  let n := String.length s in
  let c := bernstein_vazirani_circuit s in
  num_qubits c = S n
  /\ num_clbits c = n
  /\ data c = bv_instructions n (data (create_oracle s))
  /\ data (strip_barriers c) = bv_gate_sequence n (data (create_oracle s))
  /\ (forall q b, In (IMeasure q b) (data c) -> (q < n)%nat /\ q = b)
  /\ (forall q, (q < n)%nat -> In (IMeasure q q) (data c))
  /\ (forall b, ~ In (IMeasure n b) (data c)).
Proof.
  intros n c; unfold c; rewrite bv_circuit_eq; fold n; cbn [num_qubits num_clbits data].
  assert (Hmeas : forall q b, In (IMeasure q b) (bv_instructions n (data (create_oracle s)))
                  -> (q < n)%nat /\ q = b).
  { intros q b Hin; unfold bv_instructions in Hin.
    rewrite create_oracle_eq in Hin; cbn [data] in Hin.
    repeat (apply in_app_or in Hin; destruct Hin as [Hin|Hin]);
      try (apply in_map_iff in Hin; destruct Hin as [j [Hj Hin]]; try discriminate);
      try (simpl in Hin; intuition discriminate).
    injection Hj as <- <-; apply in_seq in Hin; lia. }
  split; [reflexivity|]; split; [reflexivity|]; split; [reflexivity|]; split.
  - unfold strip_barriers, bv_instructions, bv_gate_sequence; cbn [data].
    rewrite !filter_app; cbn [filter].
    rewrite create_oracle_eq; cbn [data].
    rewrite !filter_no_barrier by (apply map_no_barrier; reflexivity).
    reflexivity.
  - split; [exact Hmeas|]; split.
    + intros q Hq; unfold bv_instructions.
      rewrite !in_app_iff; right; right; right; right; right; right.
      apply in_map_iff; exists q; split; [reflexivity | apply in_seq; lia].
    + intros b Hin; apply Hmeas in Hin; lia.
Qed.

(** C10: [validate_binary_string s] is true exactly when [s] is non-empty
    and each of its characters is '0' or '1'; it is false on "". *)
Theorem validate_binary_string_iff (s : string) :
  (validate_binary_string s = true
   <-> (0 < String.length s)%nat
       /\ Forall (fun c => c = "0"%char \/ c = "1"%char) (list_ascii_of_string s))
  /\ validate_binary_string "" = false.
Proof.
  split; [|reflexivity].
  unfold validate_binary_string.
  rewrite andb_true_iff, forallb_forall, Nat.ltb_lt, Forall_forall.
  assert (Hc : forall c, in_str c "01" = true <-> c = "0"%char \/ c = "1"%char).
  { intro c; unfold in_str; simpl.
    destruct (Ascii.eqb_spec c "0"%char), (Ascii.eqb_spec c "1"%char); simpl;
      intuition congruence. }
  split; intros [H1 H2]; split; try assumption; intros c Hin; apply Hc; auto.
Qed.

(** ** Bits of basis indices *)

Lemma pow2_pos (q : nat) : 0 < 2 ^ Z.of_nat q.
Proof. apply Z.pow_pos_nonneg; lia. Qed.

Lemma pow2_succ (q : nat) : 2 ^ Z.of_nat (S q) = 2 * 2 ^ Z.of_nat q.
Proof. rewrite Nat2Z.inj_succ, Z.pow_succ_r by lia; reflexivity. Qed.

Lemma bit_flip k t q :
  bit (flip k t) q = if Nat.eqb q t then negb (bit k q) else bit k q.
Proof.
  unfold bit, flip; rewrite Z.lxor_spec, Z.pow2_bits_eqb by lia.
  destruct (Nat.eqb_spec q t) as [->|Hne].
  - rewrite Z.eqb_refl; destruct (Z.testbit k _); reflexivity.
  - rewrite (proj2 (Z.eqb_neq _ _)) by lia; apply xorb_false_r.
Qed.

Lemma flip_flip k t : flip (flip k t) t = k.
Proof. unfold flip; rewrite Z.lxor_assoc, Z.lxor_nilpotent, Z.lxor_0_r; reflexivity. Qed.

Lemma flip_comm k a b : flip (flip k a) b = flip (flip k b) a.
Proof.
  unfold flip; rewrite !Z.lxor_assoc, (Z.lxor_comm (2 ^ Z.of_nat a)); reflexivity.
Qed.

Lemma flip_nonneg k t : 0 <= k -> 0 <= flip k t.
Proof. intro Hk; apply Z.lxor_nonneg; pose proof (pow2_pos t); lia. Qed.

Lemma bit_high N k q :
  0 <= k < 2 ^ Z.of_nat N -> (N <= q)%nat -> bit k q = false.
Proof.
  intros Hk Hq; unfold bit; apply Z.testbit_false; [lia|].
  assert (2 ^ Z.of_nat N <= 2 ^ Z.of_nat q) by (apply Z.pow_le_mono_r; lia).
  rewrite Z.div_small by lia; reflexivity.
Qed.

Lemma flip_add k t : bit k t = false -> flip k t = k + 2 ^ Z.of_nat t.
Proof.
  intro Hb; unfold flip; symmetry; apply Z.add_nocarry_lxor.
  apply Z.bits_inj'; intros m Hm.
  rewrite Z.land_spec, Z.pow2_bits_eqb, Z.bits_0 by lia.
  destruct (Z.eqb_spec (Z.of_nat t) m) as [<-|]; [|apply andb_false_r].
  unfold bit in Hb; rewrite Hb; reflexivity.
Qed.

Lemma high_half N k :
  0 <= k < 2 ^ Z.of_nat N -> k + 2 ^ Z.of_nat N = flip k N.
Proof. intro Hk; symmetry; apply flip_add, (bit_high N); lia. Qed.

(** ** Exact sums over the basis *)

Lemma sum_pow_ext N f g :
  (forall k, 0 <= k < 2 ^ Z.of_nat N -> f k = g k) -> sum_pow N f = sum_pow N g.
Proof.
  revert f g; induction N as [|N IH]; intros f g Hfg; cbn [sum_pow].
  - apply Hfg; simpl; lia.
  - pose proof (pow2_pos N); rewrite pow2_succ in Hfg.
    f_equal; apply IH; intros k Hk; apply Hfg; lia.
Qed.

Lemma sum_pow_add N f g :
  sum_pow N (fun k => f k + g k) = sum_pow N f + sum_pow N g.
Proof.
  revert f g; induction N as [|N IH]; intros f g; cbn [sum_pow]; [reflexivity|].
  rewrite (IH f g), (IH (fun k => f (k + _)) (fun k => g (k + _))); ring.
Qed.

Lemma sum_pow_scale N c f : sum_pow N (fun k => c * f k) = c * sum_pow N f.
Proof.
  revert f; induction N as [|N IH]; intro f; cbn [sum_pow]; [reflexivity|].
  rewrite (IH f), (IH (fun k => f (k + _))); ring.
Qed.

Lemma sum_pow_zero N : sum_pow N (fun _ => 0) = 0.
Proof. induction N as [|N IH]; cbn [sum_pow]; [reflexivity|]; rewrite IH; reflexivity. Qed.

Lemma sum_pow_nonneg N f :
  (forall k, 0 <= k < 2 ^ Z.of_nat N -> 0 <= f k) -> 0 <= sum_pow N f.
Proof.
  revert f; induction N as [|N IH]; intros f Hf; cbn [sum_pow].
  - apply Hf; simpl; lia.
  - pose proof (pow2_pos N); rewrite pow2_succ in Hf.
    assert (0 <= sum_pow N f) by (apply IH; intros; apply Hf; lia).
    assert (0 <= sum_pow N (fun k => f (k + 2 ^ Z.of_nat N)))
      by (apply IH; intros; apply Hf; lia).
    lia.
Qed.

(** The basis splits into the pairs [(k, flip k t)] with bit [t] of [k]
    clear: the pairing every single-qubit update works on. *)
Lemma sum_pow_pairs N t f :
  (t < N)%nat ->
  sum_pow N f = sum_pow N (fun k => if bit k t then 0 else f k + f (flip k t)).
Proof.
  revert t f; induction N as [|N IH]; intros t f Ht; [lia|].
  cbn [sum_pow]; pose proof (pow2_pos N).
  destruct (Nat.eq_dec t N) as [->|Hne].
  - transitivity (sum_pow N (fun k => f k + f (k + 2 ^ Z.of_nat N))
                  + sum_pow N (fun _ => 0)).
    { rewrite sum_pow_add, sum_pow_zero; ring. }
    f_equal; apply sum_pow_ext; intros k Hk.
    + rewrite (bit_high N k N), high_half by lia; reflexivity.
    + rewrite high_half, bit_flip, Nat.eqb_refl, (bit_high N k N) by lia;
        reflexivity.
  - rewrite (IH t f), (IH t (fun k => f (k + 2 ^ Z.of_nat N))) by lia.
    f_equal; apply sum_pow_ext; intros k Hk.
    rewrite high_half, bit_flip by lia.
    assert (Hne1 : Nat.eqb t N = false) by (apply Nat.eqb_neq; lia).
    assert (Hne2 : Nat.eqb N t = false) by (apply Nat.eqb_neq; lia).
    rewrite Hne1.
    destruct (bit k t) eqn:Hbt; [reflexivity|].
    rewrite (high_half N (flip k t)); [rewrite flip_comm; reflexivity|].
    split; [apply flip_nonneg; lia|].
    destruct (Z_lt_ge_dec (flip k t) (2 ^ Z.of_nat N)) as [|Hge]; [assumption|].
    exfalso.
    (* [flip k t] has no bit at or above [N]: it stays below [2 ^ N] *)
    assert (Hlow : forall m, (N <= m)%nat -> bit (flip k t) m = false).
    { intros m Hm; rewrite bit_flip.
      destruct (Nat.eqb_spec m t); [lia|]; apply (bit_high N); lia. }
    assert (Hsm : flip k t = Z.land (flip k t) (Z.ones (Z.of_nat N))).
    { apply Z.bits_inj'; intros m Hm.
      rewrite Z.land_spec, Z.testbit_ones_nonneg by lia.
      destruct (Z.ltb_spec m (Z.of_nat N)); rewrite ?andb_true_r, ?andb_false_r;
        [reflexivity|].
      replace m with (Z.of_nat (Z.to_nat m)) by lia.
      apply (Hlow (Z.to_nat m)); lia. }
    rewrite Z.land_ones in Hsm by lia.
    pose proof (Z.mod_pos_bound (flip k t) (2 ^ Z.of_nat N) ltac:(lia)); lia.
Qed.

(** ** Probability mass *)



Lemma apply_gate_weight N g st :
  gate_ok N g ->
  sum_pow N (weight (apply_gate g st)) = gate_factor g * sum_pow N (weight st).
Proof.
  destruct g as [t|t|c t]; cbn [gate_ok gate_factor]; intro Hok.
  - rewrite Z.mul_1_l, (sum_pow_pairs N t (weight (apply_gate _ st))),
      (sum_pow_pairs N t (weight st)) by lia.
    apply sum_pow_ext; intros k _; unfold weight; cbn [apply_gate amp].
    rewrite ?bit_flip, ?Nat.eqb_refl, ?flip_flip.
    destruct (bit k t); cbn [negb]; ring.
  - rewrite (sum_pow_pairs N t (weight (apply_gate _ st))),
      (sum_pow_pairs N t (weight st)) by lia.
    rewrite <- sum_pow_scale; apply sum_pow_ext; intros k _.
    unfold weight; cbn [apply_gate amp].
    rewrite ?bit_flip, ?Nat.eqb_refl, ?flip_flip.
    destruct (bit k t); cbn [negb]; ring.
  - destruct Hok as (Hc & Ht & Hct).
    rewrite Z.mul_1_l, (sum_pow_pairs N t (weight (apply_gate _ st))),
      (sum_pow_pairs N t (weight st)) by lia.
    apply sum_pow_ext; intros k _; unfold weight; cbn [apply_gate amp].
    assert (Hcb : Nat.eqb c t = false) by (apply Nat.eqb_neq; lia).
    rewrite ?bit_flip, ?Hcb, ?flip_flip.
    destruct (bit k t), (bit k c); ring.
Qed.

Lemma apply_gate_normalized N g st :
  gate_ok N g -> normalized N st -> normalized N (apply_gate g st).
Proof.
  unfold normalized; intros Hok Hn; rewrite apply_gate_weight, Hn by assumption.
  destruct g; cbn [gate_factor apply_gate scale]; rewrite ?pow2_succ; ring.
Qed.

Lemma run_instructions_normalized N ins st :
  Forall (instruction_ok N) ins -> normalized N st ->
  normalized N (run_instructions ins st).
Proof.
  unfold run_instructions; intro Hall; revert st.
  induction Hall as [|i ins Hi _ IH]; intros st Hst; simpl; [assumption|].
  apply IH; destruct i; cbn [apply_instruction instruction_ok] in *;
    [apply apply_gate_normalized|..]; assumption.
Qed.

Lemma initial_normalized N : normalized N initial_state.
Proof.
  unfold normalized; cbn [scale initial_state]; change (2 ^ Z.of_nat 0) with 1.
  induction N as [|N IH]; cbn [sum_pow]; [reflexivity|].
  rewrite IH, (sum_pow_ext N _ (fun _ => 0)), sum_pow_zero; [reflexivity|].
  intros k Hk; pose proof (pow2_pos N); unfold weight; cbn [amp initial_state].
  replace (k + 2 ^ Z.of_nat N =? 0) with false by (symmetry; apply Z.eqb_neq; lia).
  reflexivity.
Qed.

Lemma mass_one N st : normalized N st -> Qeq (total_mass N st) 1.
Proof.
  unfold total_mass, normalized, Qeq; intro Hn; cbn [Qnum Qden].
  rewrite Hn, Z2Pos.id by apply pow2_pos; ring.
Qed.

Lemma bv_instructions_ok s :
  Forall (instruction_ok (S (String.length s)))
    (bv_instructions (String.length s) (data (create_oracle s))).
Proof.
  set (n := String.length s).
  rewrite create_oracle_eq; cbn [data]; fold n.
  apply Forall_forall; intros i Hi; unfold bv_instructions in Hi.
  repeat (apply in_app_or in Hi; destruct Hi as [Hi|Hi]).
  all: first
    [ apply in_map_iff in Hi as (q & <- & Hq);
      cbn [instruction_ok gate_ok]; try exact I;
      try (apply filter_In in Hq as [Hq _]); apply in_seq in Hq; lia
    | cbn in Hi; repeat destruct Hi as [<-|Hi]; cbn; try exact I; try lia;
      contradiction ].
Qed.

(** C7: every gate of the set {X, H, CX} preserves the probability mass;
    for any secret, the state after each prefix of the instruction list of
    the assembled circuit (in particular the final state) has total
    squared magnitude exactly 1. *)
Theorem bv_mass_preserved (s : string) (p : nat) :
  let c := bernstein_vazirani_circuit s in
  normalized (num_qubits c) (run_instructions (firstn p (data c)) initial_state)
  /\ Qeq (total_mass (num_qubits c) (run_instructions (firstn p (data c)) initial_state)) 1.
Proof.
  intro c.
  assert (Hn : normalized (num_qubits c) (run_instructions (firstn p (data c)) initial_state)).
  { apply run_instructions_normalized; [|apply initial_normalized].
    unfold c; rewrite bv_circuit_eq; cbn [num_qubits data].
    pose proof (bv_instructions_ok s) as Hall.
    rewrite <- (firstn_skipn p (bv_instructions _ _)) in Hall.
    apply Forall_app in Hall; apply Hall. }
  split; [exact Hn | apply mass_one, Hn].
Qed.

(** ** Product states under the gates *)

Lemma upd_same phi j psi : upd phi j psi j = psi.
Proof. unfold upd; rewrite Nat.eqb_refl; reflexivity. Qed.

Lemma upd_other phi j psi i : i <> j -> upd phi j psi i = phi i.
Proof. intro H; unfold upd; apply Nat.eqb_neq in H; rewrite H; reflexivity. Qed.

Lemma shiftr_flip N k t :
  (t < N)%nat -> Z.shiftr (flip k t) (Z.of_nat N) = Z.shiftr k (Z.of_nat N).
Proof.
  intro Ht; apply Z.bits_inj'; intros m Hm.
  rewrite !Z.shiftr_spec by lia; unfold flip.
  rewrite Z.lxor_spec, Z.pow2_bits_eqb by lia.
  rewrite (proj2 (Z.eqb_neq _ _)) by lia; apply xorb_false_r.
Qed.

Lemma prod_bits_ext phi psi k m :
  (forall i b, (i < m)%nat -> phi i b = psi i b) ->
  prod_bits phi k m = prod_bits psi k m.
Proof.
  induction m as [|m IH]; intro H; cbn [prod_bits]; [reflexivity|].
  rewrite IH by (intros i b Hi; apply H; lia); rewrite H by lia; reflexivity.
Qed.

Lemma prod_bits_pt phi k k' m :
  (forall i, (i < m)%nat -> phi i (bit k i) = phi i (bit k' i)) ->
  prod_bits phi k m = prod_bits phi k' m.
Proof.
  induction m as [|m IH]; intro H; cbn [prod_bits]; [reflexivity|].
  rewrite IH by (intros i Hi; apply H; lia); rewrite H by lia; reflexivity.
Qed.

Lemma prod_bits_upd phi j psi k m :
  (j < m)%nat ->
  prod_bits (upd phi j psi) k m
  = prod_bits (upd phi j (fun _ => 1)) k m * psi (bit k j).
Proof.
  induction m as [|m IH]; intro Hj; [lia|]; cbn [prod_bits].
  destruct (Nat.eq_dec m j) as [->|Hne].
  - rewrite !upd_same.
    rewrite (prod_bits_ext (upd phi j psi) (upd phi j (fun _ => 1))); [ring|].
    intros i b Hi; rewrite !upd_other by lia; reflexivity.
  - rewrite IH by lia; rewrite !upd_other by assumption; ring.
Qed.

Lemma prod_bits_split phi j k m :
  (j < m)%nat ->
  prod_bits phi k m = prod_bits (upd phi j (fun _ => 1)) k m * phi j (bit k j).
Proof.
  intro Hj; rewrite <- (prod_bits_upd phi j (phi j)) by assumption.
  apply prod_bits_ext; intros i b _; unfold upd.
  destruct (Nat.eqb_spec i j) as [->|]; reflexivity.
Qed.

(** Flipping bit [t] leaves the factors other than [t] unchanged. *)
Lemma prod_bits_flip_rest phi t k m :
  prod_bits (upd phi t (fun _ => 1)) (flip k t) m
  = prod_bits (upd phi t (fun _ => 1)) k m.
Proof.
  apply prod_bits_pt; intros i _; rewrite bit_flip.
  destruct (Nat.eqb_spec i t) as [->|]; [rewrite !upd_same|]; reflexivity.
Qed.

Lemma is_prod_ext N sc phi psi st :
  is_prod N sc phi st -> (forall i b, (i < N)%nat -> phi i b = psi i b) ->
  is_prod N sc psi st.
Proof.
  intros [Hs Ha] Hpt; split; [assumption|]; intro k; rewrite Ha; unfold prod_amp.
  rewrite (prod_bits_ext phi psi) by assumption; reflexivity.
Qed.

Lemma prod_x N sc phi st t :
  is_prod N sc phi st -> (t < N)%nat ->
  is_prod N sc (upd phi t (xswap (phi t))) (apply_gate (XGate t) st).
Proof.
  intros [Hs Ha] Ht; split; [exact Hs|]; intro k; cbn [apply_gate amp].
  rewrite Ha; unfold prod_amp; rewrite shiftr_flip by assumption.
  destruct (_ =? 0); [|reflexivity].
  rewrite (prod_bits_split phi t (flip k t)), (prod_bits_upd phi t (xswap (phi t)) k N)
    by assumption.
  rewrite prod_bits_flip_rest, bit_flip, Nat.eqb_refl; reflexivity.
Qed.

Lemma prod_h N sc phi st t :
  is_prod N sc phi st -> (t < N)%nat ->
  is_prod N (S sc) (upd phi t (hmix (phi t))) (apply_gate (HGate t) st).
Proof.
  intros [Hs Ha] Ht; split; [cbn; congruence|]; intro k; cbn [apply_gate amp].
  rewrite !Ha; unfold prod_amp; rewrite shiftr_flip by assumption.
  destruct (_ =? 0); [|destruct (bit k t); reflexivity].
  rewrite (prod_bits_split phi t (flip k t)), (prod_bits_split phi t k),
    (prod_bits_upd phi t (hmix (phi t)) k N) by assumption.
  rewrite prod_bits_flip_rest, bit_flip, Nat.eqb_refl.
  unfold hmix; destruct (bit k t); cbn [negb]; ring.
Qed.

(** Phase kickback: a CX whose target is in the state (a, -a) negates the
    [|1>] amplitude of its control. *)
Lemma prod_cx N sc phi st c t :
  is_prod N sc phi st -> (c < N)%nat -> (t < N)%nat -> c <> t ->
  (forall b, phi t (negb b) = - phi t b) ->
  is_prod N sc (upd phi c (pflip (phi c))) (apply_gate (CXGate c t) st).
Proof.
  intros [Hs Ha] Hc Ht Hct Hminus; split; [exact Hs|]; intro k; cbn [apply_gate amp].
  rewrite !Ha; unfold prod_amp; rewrite shiftr_flip by assumption.
  destruct (_ =? 0); [|destruct (bit k c); reflexivity].
  rewrite (prod_bits_split phi t (flip k t)) by assumption.
  rewrite prod_bits_flip_rest, bit_flip, Nat.eqb_refl, Hminus.
  rewrite Z.mul_opp_r, <- (prod_bits_split phi t k) by assumption.
  rewrite (prod_bits_split phi c k), (prod_bits_upd phi c (pflip (phi c)) k N)
    by assumption.
  unfold pflip; destruct (bit k c); ring.
Qed.

(** ** The state through the circuit *)

Lemma run_app l1 l2 st :
  run_instructions (l1 ++ l2) st = run_instructions l2 (run_instructions l1 st).
Proof. unfold run_instructions; apply fold_left_app. Qed.

Lemma run_cons i l st :
  run_instructions (i :: l) st = run_instructions l (apply_instruction st i).
Proof. reflexivity. Qed.

Lemma run_measures l st :
  run_instructions (map (fun q => IMeasure q q) l) st = st.
Proof. revert st; induction l as [|q l IH]; intro st; [reflexivity|]; apply IH. Qed.

Lemma run_h_seq N len : forall a sc phi st,
  is_prod N sc phi st -> (a + len <= N)%nat ->
  is_prod N (sc + len)
    (fun i => if ((a <=? i) && (i <? a + len))%nat then hmix (phi i) else phi i)
    (run_instructions (map (fun q => IGate (HGate q)) (seq a len)) st).
Proof.
  induction len as [|len IH]; intros a sc phi st Hst Hlen.
  - rewrite Nat.add_0_r; eapply is_prod_ext; [exact Hst|].
    intros i b _; destruct (Nat.leb_spec a i), (Nat.ltb_spec i (a + 0)); cbn;
      try reflexivity; lia.
  - cbn [seq map]; rewrite run_cons; cbn [apply_instruction].
    pose proof (prod_h N sc phi st a Hst ltac:(lia)) as H1.
    specialize (IH (S a) (S sc) _ _ H1 ltac:(lia)).
    replace (sc + S len)%nat with (S sc + len)%nat by lia.
    eapply is_prod_ext; [exact IH|]; intros i b _; unfold upd.
    destruct (Nat.eqb_spec i a) as [->|Hne].
    + destruct (Nat.leb_spec (S a) a), (Nat.leb_spec a a),
        (Nat.ltb_spec a (a + S len)); cbn; try reflexivity; lia.
    + destruct (Nat.leb_spec (S a) i), (Nat.leb_spec a i),
        (Nat.ltb_spec i (S a + len)), (Nat.ltb_spec i (a + S len)); cbn;
        try reflexivity; lia.
Qed.

Lemma run_oracle_seq N n f len : forall a sc phi st,
  is_prod N sc phi st -> (a + len <= n)%nat -> (n < N)%nat ->
  (forall b, phi n (negb b) = - phi n b) ->
  is_prod N sc
    (fun i => if ((a <=? i) && (i <? a + len))%nat && f i then pflip (phi i) else phi i)
    (run_instructions (map (fun i => IGate (CXGate i n)) (filter f (seq a len))) st).
Proof.
  induction len as [|len IH]; intros a sc phi st Hst Hlen Hn Hminus.
  - eapply is_prod_ext; [exact Hst|].
    intros i b _; destruct (Nat.leb_spec a i), (Nat.ltb_spec i (a + 0)); cbn;
      try reflexivity; lia.
  - cbn [seq filter]; destruct (f a) eqn:Hfa.
    + cbn [map]; rewrite run_cons; cbn [apply_instruction].
      pose proof (prod_cx N sc phi st a n Hst ltac:(lia) Hn ltac:(lia) Hminus) as H1.
      specialize (IH (S a) sc _ _ H1 ltac:(lia) Hn).
      eapply is_prod_ext; [apply IH|].
      * intro b; rewrite !upd_other by lia; apply Hminus.
      * intros i b _; unfold upd.
        destruct (Nat.eqb_spec i a) as [->|Hne].
        -- rewrite Hfa; destruct (Nat.leb_spec (S a) a), (Nat.leb_spec a a),
             (Nat.ltb_spec a (a + S len)); cbn; try reflexivity; lia.
        -- destruct (f i); [|rewrite !andb_false_r; reflexivity].
           rewrite !andb_true_r.
           destruct (Nat.leb_spec (S a) i), (Nat.leb_spec a i),
             (Nat.ltb_spec i (S a + len)), (Nat.ltb_spec i (a + S len)); cbn;
             try reflexivity; lia.
    + specialize (IH (S a) sc _ _ Hst ltac:(lia) Hn Hminus).
      eapply is_prod_ext; [exact IH|]; intros i b _.
      destruct (Nat.eqb_spec i a) as [->|Hne]; [rewrite Hfa, !andb_false_r; reflexivity|].
      destruct (f i); [|rewrite !andb_false_r; reflexivity].
      rewrite !andb_true_r.
      destruct (Nat.leb_spec (S a) i), (Nat.leb_spec a i),
        (Nat.ltb_spec i (S a + len)), (Nat.ltb_spec i (a + S len)); cbn;
        try reflexivity; lia.
Qed.

Lemma prod_bits_zero_one k m :
  (forall i, (i < m)%nat -> bit k i = false) -> prod_bits zero_phi k m = 1.
Proof.
  induction m as [|m IH]; intro H; cbn [prod_bits]; [reflexivity|].
  rewrite IH, H by (intros; apply H; lia) || lia; reflexivity.
Qed.

Lemma prod_bits_zero_zero k m i :
  (i < m)%nat -> bit k i = true -> prod_bits zero_phi k m = 0.
Proof.
  induction m as [|m IH]; intros Hi Hb; cbn [prod_bits]; [lia|].
  destruct (Nat.eq_dec i m) as [->|Hne].
  - rewrite Hb; cbn; ring.
  - rewrite IH by (lia || assumption); ring.
Qed.

Lemma initial_prod N : is_prod N 0 zero_phi initial_state.
Proof.
  split; [reflexivity|]; intro k; cbn [amp initial_state]; unfold prod_amp.
  destruct (Z.eqb_spec k 0) as [->|Hk].
  - rewrite Z.shiftr_0_l, Z.eqb_refl, prod_bits_zero_one; [reflexivity|].
    intros i _; unfold bit; apply Z.testbit_0_l.
  - destruct (Z.eqb_spec (Z.shiftr k (Z.of_nat N)) 0) as [Hs|]; [|reflexivity].
    destruct (existsb (bit k) (seq 0 N)) eqn:Hex.
    + apply existsb_exists in Hex as (i & Hi & Hb); apply in_seq in Hi.
      symmetry; apply (prod_bits_zero_zero k N i); [lia|assumption].
    + exfalso; apply Hk, Z.bits_inj'; intros m Hm; rewrite Z.bits_0.
      destruct (Z.ltb_spec m (Z.of_nat N)).
      * replace m with (Z.of_nat (Z.to_nat m)) by lia.
        destruct (bit k (Z.to_nat m)) eqn:Hb; [|exact Hb].
        assert (Ht : existsb (bit k) (seq 0 N) = true).
        { apply existsb_exists; exists (Z.to_nat m); split; [apply in_seq; lia|exact Hb]. }
        congruence.
      * replace m with ((m - Z.of_nat N) + Z.of_nat N) by lia.
        rewrite <- Z.shiftr_spec, Hs by lia; apply Z.bits_0.
Qed.

Lemma bv_final_prod s :
  let n := String.length s in
  is_prod (S n) (S (n + n)) (bv_phi s) (final_state (bernstein_vazirani_circuit s)).
Proof.
  intro n; rewrite bv_circuit_eq; fold n; unfold final_state; cbn [data].
  unfold bv_instructions; rewrite create_oracle_eq; cbn [data]; fold n.
  rewrite !run_app, run_measures.
  change (run_instructions [IBarrier (seq 0 (S n))] ?st) with st.
  change (run_instructions [IGate (XGate n); IGate (HGate n)] initial_state)
    with (apply_gate (HGate n) (apply_gate (XGate n) initial_state)).
  pose proof (initial_prod (S n)) as H0.
  pose proof (prod_x _ _ _ _ n H0 ltac:(lia)) as H1.
  pose proof (prod_h _ _ _ _ n H1 ltac:(lia)) as H2.
  pose proof (run_h_seq (S n) n 0 _ _ _ H2 ltac:(lia)) as H3.
  pose proof (run_oracle_seq (S n) n (secret_bit s) n 0 _ _ _ H3
                ltac:(lia) ltac:(lia)) as H4.
  assert (Hltn : (n <? 0 + n)%nat = false) by (apply Nat.ltb_ge; lia).

  assert (H4' := H4 ltac:(intro b; cbv beta; rewrite Hltn, andb_false_r, !upd_same;
                          destruct b; reflexivity)).
  clear H4; rename H4' into H4.
  pose proof (run_h_seq (S n) n 0 _ _ _ H4 ltac:(lia)) as H5.
  replace (S (n + n)) with (S 0 + n + n)%nat by lia.
  eapply is_prod_ext; [exact H5|]; intros i b Hi; cbv beta.
  unfold bv_phi; fold n.
  destruct (Nat.eq_dec i n) as [->|Hne].
  - rewrite Hltn, !andb_false_r, Nat.ltb_irrefl, !upd_same.
    destruct b; reflexivity.
  - assert (Hlt : (i <? 0 + n)%nat = true) by (apply Nat.ltb_lt; lia).
    assert (Hlt' : (i <? n)%nat = true) by (apply Nat.ltb_lt; lia).
    rewrite Hlt, Hlt'; cbn [Nat.leb andb]; rewrite !upd_other by assumption.
    destruct (secret_bit s i), b; reflexivity.
Qed.

(** ** Measurement and sampling *)

Lemma prod_bits_nonzero phi k m :
  prod_bits phi k m <> 0 -> forall i, (i < m)%nat -> phi i (bit k i) <> 0.
Proof.
  induction m as [|m IH]; intros H i Hi; [lia|]; cbn [prod_bits] in H.
  apply Z.neq_mul_0 in H as [H1 H2].
  destruct (Nat.eq_dec i m) as [->|]; [exact H2|apply IH; [exact H1|lia]].
Qed.

(** Only basis states whose data bits spell the secret carry amplitude. *)
Lemma bv_support s k :
  amp (final_state (bernstein_vazirani_circuit s)) k <> 0 ->
  forall i, (i < String.length s)%nat -> bit k i = secret_bit s i.
Proof.
  destruct (bv_final_prod s) as [_ Ha]; rewrite Ha; unfold prod_amp.
  destruct (_ =? 0); [|congruence].
  intros Hnz i Hi.
  assert (Hf : bv_phi s i (bit k i) <> 0) by (apply (prod_bits_nonzero _ _ _ Hnz i); lia).
  unfold bv_phi in Hf; apply Nat.ltb_lt in Hi; rewrite Hi in Hf.
  destruct (bit k i), (secret_bit s i); cbn in Hf; congruence.
Qed.

Lemma fold_measures k j len : forall a acc,
  fold_left
    (fun acc i => match i with
                  | IMeasure q c => if Nat.eqb c j then bit k q else acc
                  | _ => acc
                  end) (map (fun q => IMeasure q q) (seq a len)) acc
  = if ((a <=? j) && (j <? a + len))%nat then bit k j else acc.
Proof.
  induction len as [|len IH]; intros a acc; cbn [seq map fold_left].
  - destruct (Nat.leb_spec a j), (Nat.ltb_spec j (a + 0)); cbn; try reflexivity; lia.
  - rewrite IH.
    destruct (Nat.eqb_spec a j) as [->|Hne].
    + destruct (Nat.leb_spec (S j) j), (Nat.leb_spec j j),
        (Nat.ltb_spec j (j + S len)); cbn; try reflexivity; lia.
    + destruct (Nat.leb_spec (S a) j), (Nat.leb_spec a j),
        (Nat.ltb_spec j (S a + len)), (Nat.ltb_spec j (a + S len)); cbn;
        try reflexivity; lia.
Qed.

Lemma key_string_ext m f g :
  (forall j, (j < m)%nat -> f j = g j) -> key_string m f = key_string m g.
Proof.
  induction m as [|m IH]; intro H; cbn [key_string]; [reflexivity|].
  rewrite H, IH by (intros; apply H; lia) || lia; reflexivity.
Qed.

Lemma bv_outcome_key s k :
  amp (final_state (bernstein_vazirani_circuit s)) k <> 0 ->
  outcome_key (bernstein_vazirani_circuit s) k = decoded_secret s.
Proof.
  intro Hnz; pose proof (bv_support s k Hnz) as Hb.
  unfold outcome_key, decoded_secret; rewrite bv_circuit_eq; cbn [num_clbits data].
  apply key_string_ext; intros j Hj.
  unfold clbit_value, bv_instructions; rewrite !fold_left_app, fold_measures.
  rewrite <- Hb by assumption.
  destruct (Nat.ltb_spec j (0 + String.length s)); [reflexivity|lia].
Qed.

Lemma decoded_binary s :
  forallb (fun c => in_str c "01") (list_ascii_of_string s) = true ->
  decoded_secret s = s.
Proof.
  unfold decoded_secret, secret_bit, list_bit.
  induction s as [|c s IH]; intro Hall; [reflexivity|].
  cbn [list_ascii_of_string forallb] in Hall; apply andb_true_iff in Hall as [Hc Hall].
  cbn [String.length key_string list_ascii_of_string rev].
  rewrite nth_error_app2 by (rewrite length_rev, length_list_ascii; lia).
  rewrite length_rev, length_list_ascii, Nat.sub_diag; cbn [nth_error].
  f_equal.
  - unfold in_str in Hc; cbn in Hc.
    destruct (Ascii.eqb_spec c "0"%char) as [->|];
      [reflexivity|destruct (Ascii.eqb_spec c "1"%char) as [->|]; [reflexivity|discriminate]].
  - rewrite <- (IH Hall) at 2; apply key_string_ext; intros j Hj.
    rewrite nth_error_app1 by (rewrite length_rev, length_list_ascii; lia).
    reflexivity.
Qed.

Lemma pick_pow_spec N f r :
  (forall k, 0 <= k < 2 ^ Z.of_nat N -> 0 <= f k) ->
  0 <= r < sum_pow N f ->
  0 <= pick_pow N f r < 2 ^ Z.of_nat N /\ 0 < f (pick_pow N f r).
Proof.
  revert f r; induction N as [|N IH]; intros f r Hf Hr; cbn [pick_pow sum_pow] in *.
  - simpl; lia.
  - pose proof (pow2_pos N); rewrite pow2_succ in *.
    destruct (Z.ltb_spec r (sum_pow N f)).
    + destruct (IH f r) as [Hrange Hpos]; [intros; apply Hf; lia|lia|].
      split; [lia|exact Hpos].
    + destruct (IH (fun k => f (k + 2 ^ Z.of_nat N)) (r - sum_pow N f))
        as [Hrange Hpos]; [intros; apply Hf; lia|lia|].
      split; [lia|rewrite Z.add_comm; exact Hpos].
Qed.

Lemma bv_normalized s :
  normalized (S (String.length s)) (final_state (bernstein_vazirani_circuit s)).
Proof.
  unfold final_state; rewrite bv_circuit_eq; cbn [data].
  apply run_instructions_normalized; [apply bv_instructions_ok|apply initial_normalized].
Qed.

Lemma bv_has_measure s :
  (0 < String.length s)%nat ->
  existsb is_measure (data (bernstein_vazirani_circuit s)) = true.
Proof.
  intro Hn; rewrite bv_circuit_eq; cbn [data]; apply existsb_exists.
  exists (IMeasure 0 0); split; [|reflexivity].
  unfold bv_instructions; rewrite !in_app_iff; do 6 right.
  apply in_map_iff; exists 0%nat; split; [reflexivity|apply in_seq; lia].
Qed.

Lemma bv_no_measure_empty :
  existsb is_measure (data (bernstein_vazirani_circuit "")) = false.
Proof. reflexivity. Qed.

Lemma fold_add_repeat x v m :
  fold_left (fun cs k => add_count k cs) (repeat x m) [(x, v)] = [(x, (v + m)%nat)].
Proof.
  revert v; induction m as [|m IH]; intro v; cbn [repeat fold_left].
  - rewrite Nat.add_0_r; reflexivity.
  - cbn [add_count]; rewrite String.eqb_refl, IH, Nat.add_succ_r; reflexivity.
Qed.

Lemma counts_of_repeat x m :
  counts_of (repeat x (S m)) = [(x, S m)].
Proof. unfold counts_of; cbn [repeat fold_left add_count]; apply fold_add_repeat. Qed.

(** Every shot of the assembled circuit reads [decoded_secret s]. *)
Lemma bv_simulate s shots draw :
  (0 < String.length s)%nat -> (1 <= shots)%nat ->
  simulate_circuit (bernstein_vazirani_circuit s) shots draw
  = inr (counts_of (repeat (decoded_secret s) shots)).
Proof.
  intros Hn Hs; unfold simulate_circuit; rewrite bv_has_measure by assumption.
  replace (shots =? 0)%nat with false by (destruct shots; [lia|reflexivity]).
  cbn [negb orb].
  f_equal; f_equal.
  rewrite <- (length_seq shots 0) at 2; rewrite <- map_const.
  apply map_ext; intro i.
  apply bv_outcome_key.
  set (st := final_state (bernstein_vazirani_circuit s)).
  pose proof (bv_normalized s) as Hnorm; fold st in Hnorm; unfold normalized in Hnorm.
  replace (num_qubits (bernstein_vazirani_circuit s)) with (S (String.length s))
    by (rewrite bv_circuit_eq; reflexivity).
  pose proof (pow2_pos (scale st)).
  destruct (pick_pow_spec (S (String.length s)) (weight st)
              (draw i mod 2 ^ Z.of_nat (scale st))) as [_ Hpos].
  - intros k _; unfold weight; nia.
  - rewrite Hnorm; apply Z.mod_pos_bound; lia.
  - set (p := pick_pow _ _ _) in *; clearbody p.
    unfold weight in Hpos; intro H0; rewrite H0 in Hpos; lia.
Qed.

Lemma simulate_zero c draw : simulate_circuit c 0 draw = inl QiskitError_no_counts.
Proof. unfold simulate_circuit; rewrite orb_true_r; reflexivity. Qed.

Lemma build_bv_nonempty s :
  (0 < String.length s)%nat ->
  build_bernstein_vazirani_circuit s = inr (bernstein_vazirani_circuit s).
Proof.
  intro Hn; unfold build_bernstein_vazirani_circuit, bernstein_vazirani_circuit, h_reg_checked.
  destruct (String.length s) as [|m]; [lia|]; reflexivity.
Qed.

Lemma run_nonempty s shots draw :
  (0 < String.length s)%nat ->
  run_bernstein_vazirani s shots draw =
  match simulate_circuit (bernstein_vazirani_circuit s) shots draw with
  | inl e => mkTrace (Some (bernstein_vazirani_circuit s, shots)) None None (PyRaise e)
  | inr cs =>
      match max_key cs with
      | None => mkTrace (Some (bernstein_vazirani_circuit s, shots)) (Some cs) None
                  (PyRaise ValueError_max_empty)
      | Some f => mkTrace (Some (bernstein_vazirani_circuit s, shots)) (Some cs) (Some f)
                    PyReturnNone
      end
  end.
Proof.
  intro Hn; unfold run_bernstein_vazirani; rewrite build_bv_nonempty by assumption.
  reflexivity.
Qed.

Lemma bv_outcome_weight s y :
  outcome_weight (bernstein_vazirani_circuit s) y
  = if String.eqb (decoded_secret s) y
    then 2 ^ Z.of_nat (scale (final_state (bernstein_vazirani_circuit s))) else 0.
Proof.
  unfold outcome_weight.
  set (st := final_state (bernstein_vazirani_circuit s)).
  rewrite (sum_pow_ext _ _ (fun k => if String.eqb (decoded_secret s) y
                                     then weight st k else 0)).
  - destruct (String.eqb (decoded_secret s) y).
    + replace (num_qubits _) with (S (String.length s))
        by (rewrite bv_circuit_eq; reflexivity).
      apply bv_normalized.
    + apply sum_pow_zero.
  - intros k _; destruct (Z.eq_dec (amp st k) 0) as [H0|Hnz].
    + unfold weight; rewrite H0; destruct (String.eqb _ y), (String.eqb _ y); reflexivity.
    + rewrite bv_outcome_key by assumption; reflexivity.
Qed.

(** ** Counts and the driver *)

Lemma total_count_add key cs :
  total_count (add_count key cs) = S (total_count cs).
Proof.
  unfold total_count.
  induction cs as [|[k v] cs IH]; cbn [add_count fold_right]; [reflexivity|].
  destruct (String.eqb k key); cbn [fold_right snd] in *; lia.
Qed.

Lemma total_count_counts_of keys : total_count (counts_of keys) = length keys.
Proof.
  unfold counts_of.
  assert (H : forall cs, total_count (fold_left (fun cs k => add_count k cs) keys cs)
                         = (total_count cs + length keys)%nat).
  { induction keys as [|k keys IH]; intro cs; cbn [fold_left length]; [lia|].
    rewrite IH, total_count_add; lia. }
  rewrite H; reflexivity.
Qed.

Lemma max_from_spec best cs :
  exists v, In (max_from best cs, v) (best :: cs)
            /\ forall k' v', In (k', v') (best :: cs) -> (v' <= v)%nat.
Proof.
  revert best; induction cs as [|[k v] cs IH]; intros [bk bv]; cbn [max_from fst snd].
  - exists bv; split; [left; reflexivity|]; intros k' v' [H|[]]; injection H; intros; lia.
  - destruct (Nat.ltb_spec bv v).
    + destruct (IH (k, v)) as (w & Hin & Hmax); exists w; split; [right; exact Hin|].
      intros k' v' [H'|H']; [injection H' as <- <-|exact (Hmax _ _ H')].
      specialize (Hmax k v (or_introl eq_refl)); lia.
    + destruct (IH (bk, bv)) as (w & Hin & Hmax); exists w; split.
      * destruct Hin as [Hin|Hin]; [left; exact Hin|right; right; exact Hin].
      * intros k' v' [H'|[H'|H']].
        -- exact (Hmax _ _ (or_introl H')).
        -- injection H' as <- <-; specialize (Hmax bk bv (or_introl eq_refl)); lia.
        -- exact (Hmax _ _ (or_intror H')).
Qed.

Lemma max_key_spec cs :
  cs <> [] ->
  exists f v, max_key cs = Some f /\ In (f, v) cs
              /\ forall k' v', In (k', v') cs -> (v' <= v)%nat.
Proof.
  destruct cs as [|kv cs]; [congruence|]; intros _.
  destruct (max_from_spec kv cs) as (v & Hin & Hmax).
  exists (max_from kv cs), v; split; [reflexivity|split; assumption].
Qed.

Lemma run_instructions_strip l st :
  run_instructions (filter not_barrier l) st = run_instructions l st.
Proof.
  revert st; induction l as [|i l IH]; intro st; [reflexivity|].
  destruct i; cbn [filter not_barrier]; rewrite !run_cons; apply IH.
Qed.

Lemma clbit_value_strip l k j :
  clbit_value (filter not_barrier l) k j = clbit_value l k j.
Proof.
  unfold clbit_value; generalize false as acc.
  induction l as [|i l IH]; intro acc; [reflexivity|].
  destruct i; cbn [filter not_barrier fold_left]; apply IH.
Qed.

Lemma existsb_measure_strip l :
  existsb is_measure (filter not_barrier l) = existsb is_measure l.
Proof. induction l as [|[] l IH]; cbn; rewrite ?IH; reflexivity. Qed.

Lemma strip_barriers_data c : data (strip_barriers c) = filter not_barrier (data c).
Proof. reflexivity. Qed.

Lemma outcome_key_strip c k : outcome_key (strip_barriers c) k = outcome_key c k.
Proof.
  unfold outcome_key; cbn [num_clbits strip_barriers].
  apply key_string_ext; intros j _; rewrite strip_barriers_data; apply clbit_value_strip.
Qed.

Lemma final_state_strip c : final_state (strip_barriers c) = final_state c.
Proof. unfold final_state; rewrite strip_barriers_data; apply run_instructions_strip. Qed.

Lemma simulate_strip c shots draw :
  simulate_circuit (strip_barriers c) shots draw = simulate_circuit c shots draw.
Proof.
  unfold simulate_circuit; rewrite strip_barriers_data, existsb_measure_strip.
  rewrite final_state_strip.
  destruct (existsb is_measure (data c)); [|reflexivity]; cbn [negb orb].
  destruct (shots =? 0)%nat; [reflexivity|].
  f_equal; f_equal; apply map_ext; intro i; rewrite outcome_key_strip; reflexivity.
Qed.

Lemma outcome_prob_strip c y :
  outcome_prob (strip_barriers c) y = outcome_prob c y.
Proof.
  unfold outcome_prob, outcome_weight; rewrite !final_state_strip.
  f_equal; apply sum_pow_ext; intros k _; rewrite outcome_key_strip; reflexivity.
Qed.

(** C1: for every non-empty binary secret [s] (lengths 1 to 12 among
    them), the measured outcome is [s] with probability 1 and any other
    string with probability 0; hence every run, whatever the random draws,
    counts [s] for all its shots and reports [found_string = s], already
    with [shots = 1]. *)
Theorem bv_exact_recovery (s : string) :
  validate_binary_string s = true ->
  (forall y, Qeq (outcome_prob (bernstein_vazirani_circuit s) y)
                 (if String.eqb y s then 1 else 0))
  /\ (forall draw, tr_found (run_bernstein_vazirani s 1 draw) = Some s)
  /\ (forall shots draw, (1 <= shots)%nat ->
        tr_counts (run_bernstein_vazirani s shots draw) = Some [(s, shots)]
        /\ tr_found (run_bernstein_vazirani s shots draw) = Some s).
Proof.
  unfold validate_binary_string; intro Hv; apply andb_true_iff in Hv as [Hbin Hlen].
  apply Nat.ltb_lt in Hlen.
  assert (Hrun : forall shots draw, (1 <= shots)%nat ->
            tr_counts (run_bernstein_vazirani s shots draw) = Some [(s, shots)]
            /\ tr_found (run_bernstein_vazirani s shots draw) = Some s).
  { intros [|m] draw Hm; [lia|]; rewrite run_nonempty by assumption.
    rewrite bv_simulate, decoded_binary, counts_of_repeat by (assumption || lia).
    split; reflexivity. }
  split; [|split; [intro draw; apply (Hrun 1%nat draw); lia|exact Hrun]].
  intro y; unfold outcome_prob; rewrite bv_outcome_weight, decoded_binary by assumption.
  rewrite String.eqb_sym; destruct (String.eqb y s); unfold Qeq; cbn [Qnum Qden].
  - rewrite Z2Pos.id by apply pow2_pos; ring.
  - reflexivity.
Qed.

(** C4: for a valid input the simulation returns a counts mapping whose
    values add up to the number of shots. *)
Theorem bv_counts_sum (s : string) (shots : nat) (draw : rng) :
  validate_binary_string s = true -> (1 <= shots)%nat ->
  exists cs, simulate_circuit (bernstein_vazirani_circuit s) shots draw = inr cs
             /\ total_count cs = shots.
Proof.
  unfold validate_binary_string; intros Hv Hs.
  apply andb_true_iff in Hv as [_ Hlen]; apply Nat.ltb_lt in Hlen.
  unfold simulate_circuit; rewrite bv_has_measure by assumption.
  destruct shots as [|m]; [lia|]; cbn [negb orb Nat.eqb].
  eexists; split; [reflexivity|].
  rewrite total_count_counts_of, length_map, length_seq; reflexivity.
Qed.

(** C5 (the code): the empty secret is stopped before any simulation, by
    the [CircuitError] that [circuit.h(qr)] raises on the empty register
    (line 28); but a shot count of 0 is not rejected.  The interactive
    caller's parsing [int(shots) if shots.isdigit() else 1024] accepts
    "0" (the length parsing beside it requires [int(length) > 0]), the
    core builds the circuit and runs the simulator with [shots = 0], and
    only [result.get_counts()] then raises, ending the session. *)
Theorem shots_zero_not_rejected (coin : nat -> bool) (draws : nat -> rng)
  (secret_line : string) (rest : list string) :
  validate_binary_string (strip secret_line) = true ->
  (forall shots draw,
     tr_simulated (run_bernstein_vazirani "" shots draw) = None
     /\ tr_result (run_bernstein_vazirani "" shots draw) = PyRaise CircuitError_empty_args)
  /\ interactive_mode coin draws ("1" :: secret_line :: "n" :: "0" :: rest)%string
     = (inl (RunError QiskitError_no_counts),
        mkIO rest 0 1 [EvRun (strip secret_line) false 0
                         (run_bernstein_vazirani (strip secret_line) 0 (draws 0%nat))])
  /\ tr_simulated (run_bernstein_vazirani (strip secret_line) 0 (draws 0%nat))
     = Some (bernstein_vazirani_circuit (strip secret_line), 0%nat).
Proof.
  intro Hv.
  assert (Hlen : (0 < String.length (strip secret_line))%nat).
  { unfold validate_binary_string in Hv; apply andb_true_iff in Hv as [_ H].
    apply Nat.ltb_lt, H. }
  assert (Hrun : tr_result (run_bernstein_vazirani (strip secret_line) 0 (draws 0%nat))
                 = PyRaise QiskitError_no_counts
                 /\ tr_simulated (run_bernstein_vazirani (strip secret_line) 0 (draws 0%nat))
                    = Some (bernstein_vazirani_circuit (strip secret_line), 0%nat)).
  { rewrite run_nonempty by assumption; rewrite simulate_zero; split; reflexivity. }
  split; [intros shots draw; split; reflexivity|split; [|exact (proj2 Hrun)]].
  unfold interactive_mode.
  cbv beta iota zeta delta [interactive_loop bind input Datatypes.length lines log coin_pos run_pos].
  change (strip "1") with "1"%string.
  cbv beta iota zeta delta [dispatch bind input lines log coin_pos run_pos String.eqb Ascii.eqb Bool.eqb negb].
  rewrite Hv.
  cbv beta iota zeta delta [read_show read_shots bind input lift ret lines log coin_pos run_pos].
  change (lower (strip "n")) with "n"%string.
  change (shots_of_input "0") with (@inr py_error nat 0%nat).
  cbv beta iota zeta delta [run_bv bind ret lines log coin_pos run_pos String.eqb Ascii.eqb Bool.eqb app].
  rewrite (proj1 Hrun); reflexivity.
Qed.

Lemma shots_zero_not_rejected_witness :
  validate_binary_string (strip "101") = true
  /\ ((forall shots draw,
         tr_simulated (run_bernstein_vazirani "" shots draw) = None
         /\ tr_result (run_bernstein_vazirani "" shots draw) = PyRaise CircuitError_empty_args)
      /\ interactive_mode (fun _ => false) (fun _ _ => 0%Z) ["1"; "101"; "n"; "0"]%string
         = (inl (RunError QiskitError_no_counts),
            mkIO [] 0 1 [EvRun (strip "101") false 0
                           (run_bernstein_vazirani (strip "101") 0 ((fun _ _ => 0%Z) 0%nat))])
      /\ tr_simulated (run_bernstein_vazirani (strip "101") 0 ((fun (_ : nat) (_ : nat) => 0%Z) 0%nat))
         = Some (bernstein_vazirani_circuit (strip "101"), 0%nat)).
Proof.
  split; [vm_compute; reflexivity|].
  apply (shots_zero_not_rejected (fun _ => false) (fun _ _ => 0%Z) "101" []).
  vm_compute; reflexivity.
Defined.

(** C6: the counts (indeed the whole run) do not depend on the random
    draws at all: two runs with the same secret and shot count, whatever
    their seeds, produce the same counts and the same found string. *)
Theorem bv_run_deterministic (s : string) (shots : nat) (draw1 draw2 : rng) :
  run_bernstein_vazirani s shots draw1 = run_bernstein_vazirani s shots draw2.
Proof.
  destruct (Nat.eq_dec (String.length s) 0) as [H0|Hn].
  - destruct s; [reflexivity|discriminate].
  - rewrite !run_nonempty by lia; destruct shots as [|m].
    + rewrite !simulate_zero; reflexivity.
    + rewrite !bv_simulate by lia; reflexivity.
Qed.

(** C8 (as the code behaves): [run_bernstein_vazirani] returns None; it
    computes [counts] and [found_string = max(counts, key=counts.get)],
    a key of [counts] whose count is at least every other count, and only
    prints them.  For a valid secret and [shots >= 1] the counts are
    non-empty, so [found_string] is defined. *)
Theorem run_found_string_max (s : string) (shots : nat) (draw : rng) :
  validate_binary_string s = true -> (1 <= shots)%nat ->
  (forall cs, cs <> [] ->
     exists f v, max_key cs = Some f /\ In (f, v) cs
                 /\ forall k' v', In (k', v') cs -> (v' <= v)%nat)
  /\ exists cs f v,
       run_bernstein_vazirani s shots draw
       = mkTrace (Some (bernstein_vazirani_circuit s, shots)) (Some cs) (Some f)
           PyReturnNone
       /\ In (f, v) cs /\ forall k' v', In (k', v') cs -> (v' <= v)%nat.
Proof.
  intros Hv Hshots; split; [exact max_key_spec|].
  unfold validate_binary_string in Hv; apply andb_true_iff in Hv as [_ Hlen].
  apply Nat.ltb_lt in Hlen.
  rewrite run_nonempty, bv_simulate by assumption.
  destruct shots as [|m]; [lia|]; rewrite counts_of_repeat.
  exists [(decoded_secret s, S m)], (decoded_secret s), (S m).
  split; [reflexivity|split; [left; reflexivity|]].
  intros k' v' [H|[]]; injection H; lia.
Qed.

(** C8 fails as stated: the entry point returns None, not a record of the
    counts and the found string. *)
Lemma run_returns_none :
  tr_result (run_bernstein_vazirani "101" 1024 (fun _ => 0)) = PyReturnNone.
Proof. vm_compute; reflexivity. Qed.

(** C9: the barriers have no effect: the circuit with its barriers and the
    same circuit without them have the same outcome distribution and give
    the same simulation result for any shot count and random draws. *)
Theorem bv_barriers_no_effect (s : string) (shots : nat) (draw : rng) :
  (forall y, outcome_prob (strip_barriers (bernstein_vazirani_circuit s)) y
             = outcome_prob (bernstein_vazirani_circuit s) y)
  /\ simulate_circuit (strip_barriers (bernstein_vazirani_circuit s)) shots draw
     = simulate_circuit (bernstein_vazirani_circuit s) shots draw.
Proof.
  split; [intro y; apply outcome_prob_strip|apply simulate_strip].
Qed.

(** ** Instances of the hypotheses *)

Lemma bv_exact_recovery_witness :
  validate_binary_string "101" = true
  /\ (forall y, Qeq (outcome_prob (bernstein_vazirani_circuit "101") y)
                    (if String.eqb y "101" then 1 else 0))
  /\ (forall draw, tr_found (run_bernstein_vazirani "101" 1 draw) = Some "101"%string)
  /\ (forall shots draw, (1 <= shots)%nat ->
        tr_counts (run_bernstein_vazirani "101" shots draw) = Some [("101"%string, shots)]
        /\ tr_found (run_bernstein_vazirani "101" shots draw) = Some "101"%string).
Proof. split; [reflexivity|apply (bv_exact_recovery "101"); reflexivity]. Defined.

Lemma bv_counts_sum_witness :
  validate_binary_string "101" = true /\ (1 <= 1024)%nat
  /\ exists cs, simulate_circuit (bernstein_vazirani_circuit "101") 1024 (fun _ => 0) = inr cs
                /\ total_count cs = 1024%nat.
Proof.
  split; [reflexivity|split; [lia|]].
  apply (bv_counts_sum "101" 1024 (fun _ => 0)); [reflexivity|lia].
Defined.

Lemma run_found_string_max_witness :
  validate_binary_string "101" = true /\ (1 <= 1024)%nat
  /\ (forall cs, cs <> [] ->
        exists f v, max_key cs = Some f /\ In (f, v) cs
                    /\ forall k' v', In (k', v') cs -> (v' <= v)%nat)
  /\ exists cs f v,
       run_bernstein_vazirani "101" 1024 (fun _ => 0)
       = mkTrace (Some (bernstein_vazirani_circuit "101", 1024%nat)) (Some cs) (Some f)
           PyReturnNone
       /\ In (f, v) cs /\ forall k' v', In (k', v') cs -> (v' <= v)%nat.
Proof.
  split; [reflexivity|split; [lia|]].
  apply (run_found_string_max "101" 1024 (fun _ => 0)); [reflexivity|lia].
Defined.

(** ** Secrets with other characters *)

Lemma decoded_binarize s : decoded_secret s = binarize s.
Proof.
  unfold decoded_secret, secret_bit, list_bit.
  induction s as [|c s IH]; [reflexivity|].
  cbn [String.length key_string list_ascii_of_string rev binarize].
  rewrite nth_error_app2 by (rewrite length_rev, length_list_ascii; lia).
  rewrite length_rev, length_list_ascii, Nat.sub_diag; cbn [nth_error].
  f_equal.
  rewrite <- IH; apply key_string_ext; intros j Hj.
  rewrite nth_error_app1 by (rewrite length_rev, length_list_ascii; lia).
  reflexivity.
Qed.

Lemma binarize_id s :
  binarize s = s <-> forallb (fun c => in_str c "01") (list_ascii_of_string s) = true.
Proof.
  induction s as [|c s IH]; cbn [binarize list_ascii_of_string forallb];
    [split; intros; reflexivity|].
  rewrite andb_true_iff, <- IH.
  assert (Hc : in_str c "01" = true <-> c = "0"%char \/ c = "1"%char).
  { unfold in_str; cbn.
    destruct (Ascii.eqb_spec c "0"%char), (Ascii.eqb_spec c "1"%char); cbn;
      intuition congruence. }
  rewrite Hc; split.
  - intro H; injection H as Hc' Hs; split; [|exact Hs].
    destruct (Ascii.eqb_spec c "1"%char); [right|left]; congruence.
  - intros [[-> | ->] ->]; reflexivity.
Qed.

(** ** The results table *)

Lemma insert_desc_perm kv l : Permutation (insert_desc kv l) (kv :: l).
Proof.
  induction l as [|kv' l IH]; cbn [insert_desc]; [reflexivity|].
  destruct (snd kv' <? snd kv)%nat; [reflexivity|].
  rewrite IH; apply perm_swap.
Qed.

Lemma sorted_counts_perm_gen cs acc :
  Permutation (fold_left (fun acc kv => insert_desc kv acc) cs acc) (cs ++ acc).
Proof.
  revert acc; induction cs as [|kv cs IH]; intro acc; cbn [fold_left app]; [reflexivity|].
  rewrite IH, insert_desc_perm; symmetry; apply Permutation_middle.
Qed.

Lemma insert_desc_sorted kv l :
  Sorted (fun a b => (snd b <= snd a)%nat) l ->
  Sorted (fun a b => (snd b <= snd a)%nat) (insert_desc kv l).
Proof.
  induction l as [|kv' l IH]; intro Hs; cbn [insert_desc]; [repeat constructor|].
  destruct (Nat.ltb_spec (snd kv') (snd kv)).
  - constructor; [exact Hs|constructor; lia].
  - apply Sorted_inv in Hs as [Hl Hh]; constructor; [apply IH, Hl|].
    destruct l as [|kv'' l]; cbn [insert_desc]; [constructor; lia|].
    destruct (snd kv'' <? snd kv)%nat; constructor; [lia|].
    apply HdRel_inv in Hh; exact Hh.
Qed.

Lemma sorted_counts_sorted_gen cs acc :
  Sorted (fun a b => (snd b <= snd a)%nat) acc ->
  Sorted (fun a b => (snd b <= snd a)%nat)
    (fold_left (fun acc kv => insert_desc kv acc) cs acc).
Proof.
  revert acc; induction cs as [|kv cs IH]; intros acc Hs; [exact Hs|].
  apply IH, insert_desc_sorted, Hs.
Qed.

Lemma sorted_counts_head cs : forall best acc,
  hd_error acc = Some best ->
  option_map fst (hd_error (fold_left (fun acc kv => insert_desc kv acc) cs acc))
  = Some (max_from best cs).
Proof.
  induction cs as [|[k v] cs IH]; intros best acc Hh; cbn [fold_left max_from].
  - rewrite Hh; reflexivity.
  - destruct acc as [|kv' acc]; [discriminate|]; injection Hh as ->.
    cbn [insert_desc snd]; destruct (snd best <? v)%nat; apply IH; reflexivity.
Qed.

(** ** The interactive session *)

Lemma validate_run s shots draw :
  validate_binary_string s = true ->
  ev_ok (EvRun s false shots (run_bernstein_vazirani s shots draw))
  /\ tr_result (run_bernstein_vazirani s shots draw)
     = if (shots =? 0)%nat then PyRaise QiskitError_no_counts else PyReturnNone.
Proof.
  unfold validate_binary_string; intro Hv.
  apply andb_true_iff in Hv as [Hbin Hlen]; apply Nat.ltb_lt in Hlen.
  assert (Hv : validate_binary_string s = true)
    by (unfold validate_binary_string; rewrite Hbin; apply Nat.ltb_lt; exact Hlen).
  unfold ev_ok; rewrite run_nonempty by assumption.
  destruct shots as [|m]; cbn [Nat.eqb].
  - rewrite simulate_zero; repeat split; assumption.
  - rewrite bv_simulate, decoded_binary, counts_of_repeat by (assumption || lia).
    repeat split; assumption.
Qed.

Lemma safe_ret {A} (Q : A -> Prop) a : Q a -> safe Q (ret a).
Proof. intros Hq st Hl; cbn; split; [exact Hl|split; [lia|exact Hq]]. Qed.

Lemma safe_bind {A B} (P : A -> Prop) (Q : B -> Prop) (m : M A) (f : A -> M B) :
  safe P m -> (forall a, P a -> safe Q (f a)) -> safe Q (bind m f).
Proof.
  intros Hm Hf st Hl; unfold bind; specialize (Hm st Hl).
  destruct (m st) as [[e|a] st1]; [exact Hm|].
  destruct Hm as (Hl1 & Hlen1 & Hp); specialize (Hf a Hp st1 Hl1).
  destruct (f a st1) as [r st2]; destruct Hf as (Hl2 & Hlen2 & Hr).
  split; [exact Hl2|split; [lia|exact Hr]].
Qed.

Lemma safe_input : safe (fun _ => True) input.
Proof.
  intros [ls cp rp lg] Hl; unfold input; cbn [lines log].
  destruct ls; cbn; (split; [exact Hl|split; [lia|exact I]]).
Qed.

Lemma safe_emit ev : ev_ok ev -> safe (fun _ => True) (emit ev).
Proof.
  intros He st Hl; cbn; split; [apply Forall_app; split; auto|split; [lia|exact I]].
Qed.

Lemma safe_lift {A} (Q : A -> Prop) (r : py_error + A) :
  (match r with inl e => e = ValueError_int \/ e = EOFError | inr a => Q a end) ->
  safe Q (lift r).
Proof.
  destruct r as [e|a]; intro H; [|apply safe_ret, H].
  intros st Hl; cbn; split; [exact Hl|split; [lia|]].
  destruct H as [->| ->]; exact I.
Qed.

Section SessionProofs.

Variable coin : nat -> bool.
Variable draws : nat -> rng.

Lemma safe_run_bv s show shots :
  validate_binary_string s = true -> safe (fun _ => True) (run_bv draws s show shots).
Proof.
  intros Hv st Hl; unfold run_bv; cbv zeta.
  destruct (validate_run s shots (draws (run_pos st)) Hv) as [Hok Hres].
  rewrite Hres; cbn [log lines].
  assert (Hl' : Forall ev_ok (log st ++ [EvRun s show shots
                  (run_bernstein_vazirani s shots (draws (run_pos st)))]))
    by (apply Forall_app; split; [exact Hl|constructor; [exact Hok|constructor]]).
  destruct shots as [|m]; cbn [Nat.eqb lines log].
  - split; [exact Hl'|split; [lia|split; [reflexivity|eexists _, _, _, _; reflexivity]]].
  - split; [exact Hl'|split; [lia|exact I]].
Qed.

Lemma safe_random_chars len :
  safe (fun cs => length cs = len /\ forallb (fun c => in_str c "01") cs = true)
       (random_chars coin len).
Proof.
  induction len as [|len IH]; cbn [random_chars].
  - apply safe_ret; split; reflexivity.
  - apply (safe_bind (fun c => in_str c "01" = true)).
    + intros st Hl; cbn; split; [exact Hl|split; [lia|]].
      destruct (coin (coin_pos st)); reflexivity.
    + intros c Hc; eapply safe_bind; [exact IH|]; intros cs [Hlen Hall].
      apply safe_ret; cbn [length forallb]; rewrite Hc, Hall, Hlen; split; reflexivity.
Qed.

Lemma safe_random_secret len :
  (1 <= len)%nat ->
  safe (fun s => validate_binary_string s = true) (random_secret coin len).
Proof.
  intro Hlen; unfold random_secret; eapply safe_bind; [apply safe_random_chars|].
  intros cs [Hl Hall]; apply safe_ret.
  unfold validate_binary_string; rewrite list_ascii_of_string_of_list_ascii, Hall.
  rewrite <- length_list_ascii, list_ascii_of_string_of_list_ascii, Hl.
  apply Nat.ltb_lt; lia.
Qed.

Lemma safe_read_show : safe (fun _ => True) read_show.
Proof.
  unfold read_show; eapply safe_bind; [apply safe_input|]; intros; apply safe_ret; exact I.
Qed.

Lemma safe_read_shots : safe (fun _ => True) read_shots.
Proof.
  unfold read_shots; eapply safe_bind; [apply safe_input|]; intros l _.
  apply safe_lift; unfold shots_of_input.
  destruct (isdigit (strip l)); [destruct (int_of_digits (strip l))|]; auto.
Qed.

Lemma safe_length l : safe (fun len => (1 <= len)%nat) (lift (length_of_input l)).
Proof.
  apply safe_lift; unfold length_of_input.
  destruct (isdigit (strip l)); [destruct (int_of_digits (strip l)) as [v|]|].
  - destruct (Nat.ltb_spec 0 v); lia.
  - left; reflexivity.
  - lia.
Qed.

Lemma safe_run_demos examples :
  Forall (fun s => validate_binary_string s = true) examples ->
  safe (fun _ => True) (run_demos draws examples).
Proof.
  induction examples as [|s rest IH]; intro Hall; cbn [run_demos]; [apply safe_ret; exact I|].
  apply Forall_cons_iff in Hall as [Hs Hrest].
  eapply safe_bind; [apply safe_input|]; intros _ _.
  eapply safe_bind; [apply safe_run_bv, Hs|]; intros _ _; apply IH, Hrest.
Qed.

Lemma safe_dispatch choice : safe (fun _ => True) (dispatch coin draws choice).
Proof.
  unfold dispatch.
  destruct (String.eqb_spec choice "1") as [_|n1].
  { eapply safe_bind; [apply safe_input|]; intros l _; cbv zeta.
    destruct (validate_binary_string (strip l)) eqn:Hv; cbn [negb].
    - eapply safe_bind; [apply safe_read_show|]; intros show _.
      eapply safe_bind; [apply safe_read_shots|]; intros shots _.
      eapply safe_bind; [apply safe_run_bv, Hv|]; intros; apply safe_ret; exact I.
    - eapply safe_bind; [apply safe_emit, Hv|]; intros; apply safe_ret; exact I. }
  destruct (String.eqb_spec choice "2") as [_|n2].
  { eapply safe_bind; [apply safe_input|]; intros l _.
    eapply safe_bind; [apply safe_length|]; intros len Hlen.
    eapply safe_bind; [apply safe_random_secret, Hlen|]; intros s Hs.
    eapply safe_bind; [apply safe_read_show|]; intros show _.
    eapply safe_bind; [apply safe_read_shots|]; intros shots _.
    eapply safe_bind; [apply safe_run_bv, Hs|]; intros; apply safe_ret; exact I. }
  destruct (String.eqb_spec choice "3") as [_|n3].
  { eapply safe_bind; [apply safe_run_demos|]; [|intros; apply safe_ret; exact I].
    unfold demo_examples; repeat constructor. }
  destruct (String.eqb_spec choice "4") as [_|n4]; [apply safe_ret; exact I|].
  eapply safe_bind; [apply safe_emit|intros; apply safe_ret; exact I].
  cbn [ev_ok In]; intros [H|[H|[H|[H|[]]]]]; congruence.
Qed.

Lemma loop_safe fuel : forall st,
  Forall ev_ok (log st) -> (length (lines st) < fuel)%nat ->
  match interactive_loop coin draws fuel st with
  | (r, st') =>
      Forall ev_ok (log st')
      /\ match r with
         | inr _ => True
         | inl (RunError e) =>
             e = QiskitError_no_counts
             /\ exists pre s show tr, log st' = pre ++ [EvRun s show 0 tr]
         | inl LoopFuel => False
         | inl _ => True
         end
  end.
Proof.
  induction fuel as [|fuel IH]; intros [ls cp rp lg] Hl Hlen; [cbn in Hlen; lia|].
  cbn [interactive_loop]; unfold bind, input; cbn [lines log] in *.
  destruct ls as [|l rest]; [split; [exact Hl|exact I]|].
  cbn [lines log coin_pos run_pos].
  pose proof (safe_dispatch (strip l) (mkIO rest cp rp lg) Hl) as Hd.
  destruct (dispatch coin draws (strip l) (mkIO rest cp rp lg)) as [[e|b] st2].
  - destruct Hd as (Hl2 & _ & He); split; [exact Hl2|exact He].
  - destruct Hd as (Hl2 & Hlen2 & _); cbn [lines length] in Hlen, Hlen2.
    destruct b; [apply IH; [exact Hl2|lia]|cbn; split; [exact Hl2|exact I]].
Qed.

End SessionProofs.

(** Extra: for any non-empty secret, binary or not, and any [shots >= 1],
    every shot measures the secret with each character other than '1'
    read as '0' ([binarize]); that string is the found string, and it
    equals the secret (the SUCCESS branch of the script) exactly when the
    secret passes [validate_binary_string]. *)
Theorem run_finds_binarized (s : string) (shots : nat) (draw : rng) :
  (0 < String.length s)%nat -> (1 <= shots)%nat ->
  (forall y, Qeq (outcome_prob (bernstein_vazirani_circuit s) y)
                 (if String.eqb y (binarize s) then 1 else 0))
  /\ tr_counts (run_bernstein_vazirani s shots draw) = Some [(binarize s, shots)]
  /\ tr_found (run_bernstein_vazirani s shots draw) = Some (binarize s)
  /\ (binarize s = s <-> validate_binary_string s = true).
Proof.
  intros Hlen Hshots; split; [|split; [|split]].
  - intro y; unfold outcome_prob; rewrite bv_outcome_weight, decoded_binarize.
    rewrite String.eqb_sym; destruct (String.eqb y (binarize s)); unfold Qeq; cbn [Qnum Qden].
    + rewrite Z2Pos.id by apply pow2_pos; ring.
    + reflexivity.
  - rewrite run_nonempty, bv_simulate, decoded_binarize by assumption.
    destruct shots as [|m]; [lia|]; rewrite counts_of_repeat; reflexivity.
  - rewrite run_nonempty, bv_simulate, decoded_binarize by assumption.
    destruct shots as [|m]; [lia|]; rewrite counts_of_repeat; reflexivity.
  - rewrite binarize_id; unfold validate_binary_string.
    rewrite andb_true_iff, Nat.ltb_lt; tauto.
Qed.

(** Extra: the results table [sorted(counts.items(), key=lambda x: x[1],
    reverse=True)] lists every entry of [counts] once, in non-increasing
    order of count, and its first row holds [found_string], the key
    [max(counts, key=counts.get)] picks (none when [counts] is empty). *)
Theorem results_table_sorted (cs : counts) :
  Permutation (sorted_counts cs) cs
  /\ Sorted (fun a b => (snd b <= snd a)%nat) (sorted_counts cs)
  /\ option_map fst (hd_error (sorted_counts cs)) = max_key cs.
Proof.
  split; [|split].
  - unfold sorted_counts; rewrite sorted_counts_perm_gen, app_nil_r; reflexivity.
  - apply sorted_counts_sorted_gen; constructor.
  - destruct cs as [|kv cs]; [reflexivity|]; unfold sorted_counts; cbn [fold_left max_key].
    apply sorted_counts_head; reflexivity.
Qed.

(** Extra: the [while True] loop of [interactive_mode] reads at least one
    line per pass, so on any finite input the session ends, within one
    pass per line: through option 4, through [EOFError] at the end of the
    input, through the [ValueError] of [int()], or through an exception of
    a run; never by running out of passes. *)
Theorem interactive_mode_terminates (coin : nat -> bool) (draws : nat -> rng)
  (input_lines : list string) :
  fst (interactive_mode coin draws input_lines) <> inl LoopFuel.
Proof.
  unfold interactive_mode.
  pose proof (loop_safe coin draws (S (length input_lines)) (mkIO input_lines 0 0 [])
                (Forall_nil _) (Nat.lt_succ_diag_r _)) as H.
  destruct (interactive_loop coin draws _ _) as [r st']; cbn [fst].
  destruct H as [_ H]; intro E; subst r; exact H.
Qed.

(** Extra: in every session, whatever the input lines and random draws,
    each logged event is [ev_ok]: an invalid-secret message is only given
    for a secret failing [validate_binary_string]; an invalid-choice
    message only for a choice other than 1-4; and every run, from options
    1, 2 or 3, is on a secret passing [validate_binary_string] and, with at
    least one shot, returns normally with counts {secret: shots} and finds
    the secret. *)
Theorem interactive_mode_events_ok (coin : nat -> bool) (draws : nat -> rng)
  (input_lines : list string) :
  Forall ev_ok (log (snd (interactive_mode coin draws input_lines))).
Proof.
  unfold interactive_mode.
  pose proof (loop_safe coin draws (S (length input_lines)) (mkIO input_lines 0 0 [])
                (Forall_nil _) (Nat.lt_succ_diag_r _)) as H.
  destruct (interactive_loop coin draws _ _) as [r st']; exact (proj1 H).
Qed.

(** Extra: a session only ends with an exception of a run through a run
    with zero shots (a shots answer such as "0", which [isdigit] accepts):
    the simulator runs with no shot and [result.get_counts()] raises the
    [QiskitError] of a run without counts; that run is the last event of
    the session. *)
Theorem interactive_mode_run_error (coin : nat -> bool) (draws : nat -> rng)
  (input_lines : list string) (e : py_exc) :
  fst (interactive_mode coin draws input_lines) = inl (RunError e) ->
  e = QiskitError_no_counts
  /\ exists pre s show tr,
       log (snd (interactive_mode coin draws input_lines)) = pre ++ [EvRun s show 0 tr].
Proof.
  unfold interactive_mode.
  pose proof (loop_safe coin draws (S (length input_lines)) (mkIO input_lines 0 0 [])
                (Forall_nil _) (Nat.lt_succ_diag_r _)) as H.
  destruct (interactive_loop coin draws _ _) as [r st']; cbn [fst snd].
  intro E; subst r; exact (proj2 H).
Qed.

Lemma run_finds_binarized_witness :
  (0 < String.length "1a1")%nat /\ (1 <= 5)%nat
  /\ (forall y, Qeq (outcome_prob (bernstein_vazirani_circuit "1a1") y)
                    (if String.eqb y (binarize "1a1") then 1 else 0))
  /\ tr_counts (run_bernstein_vazirani "1a1" 5 (fun _ => 0))
     = Some [(binarize "1a1", 5%nat)]
  /\ tr_found (run_bernstein_vazirani "1a1" 5 (fun _ => 0)) = Some (binarize "1a1")
  /\ (binarize "1a1" = "1a1"%string <-> validate_binary_string "1a1" = true).
Proof.
  split; [cbn; lia|split; [lia|]].
  apply (run_finds_binarized "1a1" 5 (fun _ => 0)); cbn; lia.
Defined.

Lemma interactive_mode_run_error_witness :
  fst (interactive_mode (fun _ => false) (fun _ _ => 0) ["1"; "101"; "n"; "0"]%string)
    = inl (RunError QiskitError_no_counts)
  /\ QiskitError_no_counts = QiskitError_no_counts
  /\ exists pre s show tr,
       log (snd (interactive_mode (fun _ => false) (fun _ _ => 0)
                   ["1"; "101"; "n"; "0"]%string)) = pre ++ [EvRun s show 0 tr].
Proof.
  assert (H : fst (interactive_mode (fun _ => false) (fun _ _ => 0)
                     ["1"; "101"; "n"; "0"]%string)
              = inl (RunError QiskitError_no_counts)) by (vm_compute; reflexivity).
  split; [exact H|].
  exact (interactive_mode_run_error (fun _ => false) (fun _ _ => 0)
           ["1"; "101"; "n"; "0"]%string QiskitError_no_counts H).
Defined.

(** ** Sample runs *)

Example ex_oracle_101 : data (create_oracle "101") = [IGate (CXGate 0 3); IGate (CXGate 2 3)].
Proof. reflexivity. Qed.

Example ex_run_101 : run_bernstein_vazirani "101" 5 (fun i => Z.of_nat i * 37) =
  mkTrace (Some (bernstein_vazirani_circuit "101", 5%nat)) (Some [("101"%string, 5%nat)]) (Some "101"%string) PyReturnNone.
Proof. vm_compute. reflexivity. Qed.

